(** * apimda: transport adapters of the runtime

    A shallow embedding of the two transport adapters of apimda,

    - [packages/runtime-lambda/src/awsLambdaRuntime.ts] (API Gateway events),
    - [packages/runtime-node/src/nodeRuntime.ts] (node:http requests),

    and the properties of input extraction, route lookup, result shaping and
    lazy controller construction that hold (or fail) for them.

    Conventions of the embedding:
    - a JavaScript string is a [string] of ASCII text; letter case is the
      ASCII one ([A]-[Z] against [a]-[z]), where [toLowerCase] and
      [toUpperCase] of JavaScript do the same; text outside ASCII is not
      embedded;
    - a plain object used as a dictionary is a [gmap string _] of its own
      properties; reading [obj[key]] also finds what the object inherits
      from [Object.prototype] ([get]); an object whose iteration order
      is observable (cookies pushed in [for ... in] order) is an
      association list;
    - a function that may [throw] returns a [Completion];
    - an [async] function is cut at its [await]s into segments that run
      atomically, and a scheduler picks which suspended call resumes. *)

From Stdlib Require Import ZArith NArith Ascii String List Lia Bool.
From stdpp Require Import base tactics option list strings gmap pretty.

Local Open Scope Z_scope.

(** * JavaScript values shared by both adapters *)

(** ** Strings *)

Module JsString.

Definition is_upper (c : ascii) : bool :=
  ((65 <=? N_of_ascii c) && (N_of_ascii c <=? 90))%N.

Definition is_lower (c : ascii) : bool :=
  ((97 <=? N_of_ascii c) && (N_of_ascii c <=? 122))%N.

Definition lower_char (c : ascii) : ascii :=
  if is_upper c then ascii_of_N (N_of_ascii c + 32) else c.

Definition upper_char (c : ascii) : ascii :=
  if is_lower c then ascii_of_N (N_of_ascii c - 32) else c.

(** [s.toLowerCase()] *)
Fixpoint toLowerCase (s : string) : string :=
  match s with
  | EmptyString => EmptyString
  | String c s' => String (lower_char c) (toLowerCase s')
  end.

(** [s.toUpperCase()] *)
Fixpoint toUpperCase (s : string) : string :=
  match s with
  | EmptyString => EmptyString
  | String c s' => String (upper_char c) (toUpperCase s')
  end.

(** [s.indexOf(pat)]: the position of the first occurrence, [-1] if none. *)
Definition indexOf (s pat : string) : Z :=
  match String.index 0 pat s with
  | Some i => Z.of_nat i
  | None => -1
  end.

(** [s.substring(indexStart, indexEnd)]: both indices are clamped to
    [0 .. s.length] and swapped when out of order. *)
Definition substring (s : string) (indexStart indexEnd : Z) : string :=
  let len := Z.of_nat (String.length s) in
  let a := Z.max 0 (Z.min indexStart len) in
  let b := Z.max 0 (Z.min indexEnd len) in
  String.substring (Z.to_nat (Z.min a b)) (Z.to_nat (Z.max a b - Z.min a b)) s.

(** [s.substring(indexStart)] *)
Definition substringFrom (s : string) (indexStart : Z) : string :=
  substring s indexStart (Z.of_nat (String.length s)).

(** Some character of [s] is an upper-case letter. *)
Fixpoint has_upper (s : string) : bool :=
  match s with
  | EmptyString => false
  | String c s' => is_upper c || has_upper s'
  end.

(** [u] is an upper-case letter and [l] the lower-case letter of the
    same rank. *)
Definition letter_pair (u l : ascii) : Prop :=
  is_upper u = true ∧ N_of_ascii l = (N_of_ascii u + 32)%N.

Definition same_letter (c d : ascii) : Prop :=
  c = d ∨ letter_pair c d ∨ letter_pair d c.

(** Two strings that differ only in the case of their letters. *)
Inductive differ_only_in_case : string → string → Prop :=
| doc_empty : differ_only_in_case EmptyString EmptyString
| doc_char c d s t :
    same_letter c d → differ_only_in_case s t →
    differ_only_in_case (String c s) (String d t).

(** The text before and the text after the first [=] of [s], when [s]
    has one. *)
Fixpoint split_first_eq (s : string) : option (string * string) :=
  match s with
  | EmptyString => None
  | String c s' =>
      if bool_decide (c = "="%char) then Some (EmptyString, s')
      else
        match split_first_eq s' with
        | Some (n, v) => Some (String c n, v)
        | None => None
        end
  end.

End JsString.

(** ** Plain objects *)

(** The names every plain object inherits from [Object.prototype]. *)
Definition Object_prototype : list string :=
  ["constructor"; "__defineGetter__"; "__defineSetter__"; "hasOwnProperty";
   "__lookupGetter__"; "__lookupSetter__"; "isPrototypeOf";
   "propertyIsEnumerable"; "toString"; "valueOf"; "__proto__";
   "toLocaleString"].

(** What [obj[key]] finds: an own property, or the member of
    [Object.prototype] of that name. *)
Inductive Member (V : Type) : Type :=
| Own (v : V)
| Inherited (name : string).
Arguments Own {V} v.
Arguments Inherited {V} name.

(** [obj[key]] on a plain object with the own properties [own]; [None]
    is [undefined]. *)
Definition get {V : Type} (own : gmap string V) (key : string) : option (Member V) :=
  match own !! key with
  | Some v => Some (Own v)
  | None =>
      if bool_decide (key ∈ Object_prototype) then Some (Inherited key) else None
  end.

(** ** Errors and completions *)

Inductive JsError : Type :=
| HttpError (statusCode : Z) (message : string)   (* [new HttpError(status, message)] *)
| Error (message : string)                        (* [new Error(message)] *)
| SyntaxError                                     (* raised by [JSON.parse] *)
| TypeError.                                      (* a property read on [undefined] *)

Inductive Completion (A : Type) : Type :=
| Return (a : A)
| Throw (e : JsError).
Arguments Return {A} a.
Arguments Throw {A} e.

Definition bind {A B} (c : Completion A) (k : A → Completion B) : Completion B :=
  match c with
  | Return a => k a
  | Throw e => Throw e
  end.

(** The status a thrown value carries, if it is an [HttpError]. *)
Definition statusOf (e : JsError) : option Z :=
  match e with
  | HttpError st _ => Some st
  | _ => None
  end.

(** ** Built-ins of the platform

    [JSON.parse], [new URL(_, base).pathname], [Buffer.from(_, 'base64')]
    and [buf.toString('base64')] belong to the JavaScript platform, not to
    apimda; the adapters are embedded over any implementation of them.
    [JSON_parse] answers [None] where [JSON.parse] throws its [SyntaxError],
    [URL_pathname] where the [URL] constructor throws its [TypeError]. *)

Class Builtins : Type := {
  JsonValue : Type;
  JSON_parse : string → option JsonValue;
  URL_pathname : string → option string;
  Buffer_from_base64 : string → list Byte.byte;
  Buffer_toString_base64 : list Byte.byte → string
}.

(** ** Metadata of [@apimda/runtime] used by the adapters

    The declarations live in the runtime package; the fields below are the
    ones the adapters read. *)

Inductive InputLocation : Type :=
| loc_request | loc_query | loc_path | loc_header | loc_cookie | loc_body
| loc_other (l : string).

Record RuntimeInput : Type := {
  location : InputLocation;
  name : string;
  declaredTypeName : string;
  required : option bool
}.

Record RuntimeRoute : Type := {
  method : string;
  path : string;
  methodName : string;
  inputs : list RuntimeInput
}.

Record RuntimeController : Type := {
  className : string;
  moduleName : string;
  ctorEnvNames : list string;
  initMethodName : option string;
  routes : list RuntimeRoute
}.

Record RuntimeApp : Type := {
  controllers : list RuntimeController
}.

(** A header or cookie value of a result: [string | number | boolean].
    Numbers are the integers. *)
Inductive Scalar : Type :=
| SString (s : string)
| SNumber (n : Z)
| SBoolean (b : bool).

(** [v.toString()], also the text a template literal inserts for [v]. *)
Definition Scalar_toString (v : Scalar) : string :=
  match v with
  | SString s => s
  | SNumber n => pretty n
  | SBoolean true => "true"
  | SBoolean false => "false"
  end.

(** JavaScript truthiness of a scalar. *)
Definition truthy (v : Scalar) : bool :=
  match v with
  | SString s => negb (bool_decide (s = ""))
  | SNumber n => negb (n =? 0)
  | SBoolean b => b
  end.

Inductive Body : Type :=
| BodyText (s : string)
| BodyBuffer (b : list Byte.byte).

Record RuntimeResult : Type := {
  statusCode : Z;
  result_headers : gmap string Scalar;
  result_cookies : list (string * Scalar);
  result_body : Body;
  isBinary : bool
}.

(** What an extractor hands to validation: [undefined], a string, a
    [Buffer], a parsed JSON value, the transport's request object, or the
    member of [Object.prototype] a property read has found. *)
Inductive Extracted (T : Type) `{Builtins} : Type :=
| undefined
| VString (s : string)
| VBuffer (b : list Byte.byte)
| VJson (j : JsonValue)
| VRequest (r : T)
| VInherited (name : string).
Arguments undefined {T _}.
Arguments VString {T _} s.
Arguments VBuffer {T _} b.
Arguments VJson {T _} j.
Arguments VRequest {T _} r.
Arguments VInherited {T _} name.

(** [interface InputExtractor<T>] *)
Class InputExtractor (X T : Type) `{Builtins} : Type :=
  extract : X → RuntimeInput → Completion (Extracted T).

(** * The AWS Lambda adapter ([awsLambdaRuntime.ts]) *)

Module Lambda.

(** [APIGatewayProxyEventV2], the fields the adapter reads. *)
Record Event : Type := {
  routeKey : string;
  queryStringParameters : option (gmap string string);
  pathParameters : option (gmap string string);
  headers : option (gmap string string);
  cookies : option (list string);
  body : option string;
  isBase64Encoded : bool
}.

(** [APIGatewayProxyStructuredResultV2] as [toLambdaResult] fills it. *)
Record Result : Type := {
  res_statusCode : Z;
  res_headers : gmap string Scalar;
  res_cookies : list string;
  res_body : Body;
  res_isBase64Encoded : bool
}.

Record RouteInfo : Type := {
  controllerManager : RuntimeController;   (* the controller the manager was made for *)
  route : RuntimeRoute
}.

Definition toLambdaCookies (cookies : list (string * Scalar)) : list string :=
  map (λ c, fst c +:+ "=" +:+ Scalar_toString (snd c)) cookies.

(** [event.cookies] loop of [extract]: the first entry whose text before
    its first [=] is [name], provided that [=] is not at index 0. *)
Fixpoint findCookie `{Builtins} {T} (name : string) (cookies : list string)
  : Extracted T :=
  match cookies with
  | [] => undefined
  | cookie :: rest =>
      let eqIdx := JsString.indexOf cookie "=" in
      if 0 <? eqIdx then
        let name' := JsString.substring cookie 0 eqIdx in
        let value := JsString.substringFrom cookie (eqIdx + 1) in
        if bool_decide (name = name') then VString value else findCookie name rest
      else findCookie name rest
  end.

(** [(obj || {})[key]] *)
Definition prop `{Builtins} {T} (obj : option (gmap string string)) (key : string)
  : Extracted T :=
  match get (default ∅ obj) key with
  | Some (Own v) => VString v
  | Some (Inherited name) => VInherited name
  | None => undefined
  end.

Section Adapter.
Context `{Builtins}.

(** [LambdaExtractor.extract] *)
Definition LambdaExtractor_extract (event : Event) (input : RuntimeInput)
  : Completion (Extracted Event) :=
  match location input with
  | loc_request => Return (VRequest event)
  | loc_query => Return (prop (queryStringParameters event) (name input))
  | loc_path => Return (prop (pathParameters event) (name input))
  | loc_header =>
      Return (prop (headers event) (JsString.toLowerCase (name input)))
  | loc_cookie =>
      match cookies event with
      | Some cs => Return (findCookie (name input) cs)
      | None => Return undefined
      end
  | loc_body =>
      match body event with
      | None => Return undefined
      | Some text =>
          if bool_decide (text = "") then Return undefined   (* [!this.event.body] *)
          else if bool_decide (declaredTypeName input = "string") then
            Return (VString text)
          else if bool_decide (declaredTypeName input = "Buffer") then
            if negb (isBase64Encoded event) then
              Throw (HttpError 400 "Expected binary input")
            else Return (VBuffer (Buffer_from_base64 text))
          else
            match JSON_parse text with
            | Some j => Return (VJson j)
            | None => Throw SyntaxError
            end
      end
  | loc_other l => Throw (Error ("Unsupported param type: " +:+ l))
  end.

#[export] Instance LambdaExtractor : InputExtractor Event Event :=
  LambdaExtractor_extract.

Definition toLambdaResult (result : RuntimeResult) : Result :=
  {| res_statusCode := statusCode result;
     res_headers := result_headers result;
     res_cookies := toLambdaCookies (result_cookies result);
     res_body :=
       if isBinary result then
         match result_body result with
         | BodyBuffer b => BodyText (Buffer_toString_base64 b)
         | BodyText s => BodyText s
         end
       else result_body result;
     res_isBase64Encoded := isBinary result |}.

Definition routeKeyOf (r : RuntimeRoute) : string :=
  JsString.toUpperCase (method r) +:+ " " +:+ path r.

(** The own entries of the table [routesByPath] after the two nested
    loops; a later route with the same key replaces an earlier one. *)
Definition routesByPath (app : RuntimeApp) : gmap string RouteInfo :=
  fold_left
    (λ table controller,
       fold_left
         (λ table r,
            <[routeKeyOf r := {| controllerManager := controller; route := r |}]> table)
         (routes controller) table)
    (controllers app) ∅.

(** [processRequest] of [@apimda/runtime], which is not part of the
    adapter: event, extractor, route, controller manager, and the
    validator built from the app. *)
Variable processRequest :
  Event → (RuntimeInput → Completion (Extracted Event)) →
  RuntimeRoute → RuntimeController → RuntimeApp → Completion RuntimeResult.

(** The handler [createAwsLambdaHandler(app)] returns. [routeInfo.route]
    is evaluated as an argument of [processRequest]; on a [routeInfo]
    that is [undefined] it throws before [processRequest] is entered.
    The handler is embedded for the keys the table has or lacks as own
    entries; a [routeKey] that names a member of [Object_prototype]
    finds that member instead, and is left out. *)
Definition createAwsLambdaHandler (app : RuntimeApp) (event : Event)
  : Completion Result :=
  let routeInfo := routesByPath app !! routeKey event in
  match routeInfo with
  | None => Throw TypeError
  | Some ri =>
      bind (processRequest event (extract event) (route ri)
              (controllerManager ri) app)
           (λ result, Return (toLambdaResult result))
  end.

End Adapter.

End Lambda.

(** * The node:http adapter ([nodeRuntime.ts]) *)

Module Node.

(** [IncomingMessage], the fields the listener reads before dispatch. *)
Record IncomingMessage : Type := {
  url : option string;
  req_method : option string;
  req_headers : gmap string string
}.

(** A header value handed to [writeHead]: [string | string[]]. *)
Inductive HeaderValue : Type :=
| One (s : string)
| Many (l : list string).

(** What has been written on a [ServerResponse] once [end()] is called. *)
Record ServerResponse : Type := {
  res_statusCode : Z;
  res_headers : gmap string HeaderValue;
  res_body : Body
}.

(** [routeMatcher.match(_)] when it finds a route. *)
Record RouteMatch : Type := {
  match_path : string;
  pathParameters : gmap string string
}.

(** The stream [getBody] reads: the request itself, or the request piped
    through [zlib.createInflate()] or [zlib.createGunzip()]. *)
Inductive Readable : Type :=
| Request
| Inflate
| Gunzip.

(** [getRawBody.Options] as [getBody] fills [limit], [length] and
    [encoding]; the last is [null] ([None], a [Buffer] is wanted) or [true]
    (utf-8 text). *)
Record Options : Type := {
  opt_limit : string;
  opt_length : option string;
  opt_encoding : option bool
}.

(** [getBody] up to its call of [getRawBody], a function of the
    [raw-body] package: the stream and the options it is called with. *)
Definition getBody (request : IncomingMessage) (input : RuntimeInput)
  : Readable * Options :=
  let encoding := JsString.toLowerCase <$> req_headers request !! "content-encoding" in
  let bodyStream :=
    if bool_decide (encoding = Some "deflate") then Inflate
    else if bool_decide (encoding = Some "gzip") then Gunzip
    else Request in
  (bodyStream,
   {| opt_limit := "10mb";
      opt_length := req_headers request !! "content-length";
      opt_encoding :=
        if bool_decide (declaredTypeName input = "Buffer") then None
        else Some true |}).

(** [!result.headers[key]] *)
Definition missing (headers : gmap string Scalar) (key : string) : bool :=
  match headers !! key with
  | Some v => negb (truthy v)
  | None => true
  end.

Definition sendResultResponse (result : RuntimeResult) : ServerResponse :=
  let copied : gmap string HeaderValue :=
    (λ v, One (Scalar_toString v)) <$> result_headers result in
  let outgoingHeaders :=
    if missing (result_headers result) "Content-Type"
    then <["Content-Type" := One "application/json"]> copied
    else copied in
  let cookies :=
    map (λ c, fst c +:+ "=" +:+ Scalar_toString (snd c)) (result_cookies result) in
  let outgoingHeaders :=
    if (0 <? length cookies)%nat
    then <["Set-Cookie" := Many cookies]> outgoingHeaders
    else outgoingHeaders in
  {| res_statusCode := statusCode result;
     res_headers := outgoingHeaders;
     res_body := result_body result |}.

Section Listener.
Context `{Builtins}.

(** The table [statusCodeToDesc] of [@apimda/runtime]. *)
Variable statusCodeToDesc : Z → string.

(** [RouteMatcher] of [./routeMatcher]: what [match] answers after the
    given paths were [add]ed in that order. *)
Variable RouteMatcher_match : list string → string → option RouteMatch.

Definition sendErrorResponse (statusCode : Z) : ServerResponse :=
  {| res_statusCode := statusCode;
     res_headers := {[ "Content-Type" := One "text/plain" ]};
     res_body := BodyText (statusCodeToDesc statusCode) |}.

Definition routePathOf (r : RuntimeRoute) : string :=
  method r +:+ "/" +:+ path r.

(** The setup loops of [createRequestListener]: the paths added to the
    matcher, in order, and [routeMap]. The manager made for the [i]-th
    controller is named by [i]. *)
Fixpoint register (i : nat) (cs : list RuntimeController)
    (acc : list string * gmap string (nat * RuntimeRoute))
  : list string * gmap string (nat * RuntimeRoute) :=
  match cs with
  | [] => acc
  | controller :: cs' =>
      register (S i) cs'
        (fold_left
           (λ acc r,
              (fst acc ++ [routePathOf r],
               <[routePathOf r := (i, r)]> (snd acc)))
           (routes controller) acc)
  end.

Definition routeMatcher (app : RuntimeApp) : list string :=
  fst (register 0 (controllers app) ([], ∅)).

Definition routeMap (app : RuntimeApp) : gmap string (nat * RuntimeRoute) :=
  snd (register 0 (controllers app) ([], ∅)).

(** How far the listener gets before it reads the body. *)
Inductive Routing : Type :=
| Responded (response : ServerResponse)   (* response ended, listener returned *)
| Rejected (e : JsError)                  (* the listener's promise rejects *)
| Dispatch (manager : nat) (r : RuntimeRoute) (m : RouteMatch).
                                          (* goes on with body, instance, processRequest *)

(** The listener of [createRequestListener(app)] up to the lookup in
    [routeMap]. *)
Definition requestListener_route (app : RuntimeApp) (request : IncomingMessage)
  : Routing :=
  match url request with
  | None => Responded (sendErrorResponse 404)
  | Some u =>
      if bool_decide (u = "") then Responded (sendErrorResponse 404)
      else
        match URL_pathname u with
        | None => Rejected TypeError
        | Some pathname =>
            let routePath :=
              from_option JsString.toLowerCase "" (req_method request)
              +:+ "/" +:+ pathname in
            match RouteMatcher_match (routeMatcher app) routePath with
            | None => Responded (sendErrorResponse 404)
            | Some routeMatch =>
                match routeMap app !! match_path routeMatch with
                | None => Rejected TypeError
                | Some (manager, r) => Dispatch manager r routeMatch
                end
            end
        end
  end.

End Listener.

(** ** [class ControllerInstanceManager]

    An instance is named by the rank of the [new clazz(args)] that built
    it. What the world outside the manager does is fixed by an
    [Environment]; the counters of [World] record what was done. *)

Record Environment : Type := {
  import_ok : bool;          (* [import(moduleName)] fulfils *)
  construct_ok : nat → bool; (* the [k]-th [new clazz(args)] returns *)
  init_ok : nat → bool       (* the init hook run on instance [k] fulfils *)
}.

Record Manager : Type := {
  runtime : RuntimeController;
  module : bool;             (* [this.module] is set *)
  instance : option nat;     (* [this.instance] *)
  initialized : bool         (* [this.initialized] *)
}.

(** [new ControllerInstanceManager(runtime)] *)
Definition newManager (runtime : RuntimeController) : Manager :=
  {| runtime := runtime;
     module := false;
     instance := None;
     initialized := bool_decide (initMethodName runtime = None) |}.

Record World : Type := {
  manager : Manager;
  imports : nat;             (* [import(...)] evaluated *)
  constructions : nat;       (* [new clazz(args)] evaluated *)
  initStarted : list nat;    (* instances the init hook was applied to *)
  initCompleted : list nat   (* instances whose init hook has fulfilled *)
}.

Definition newWorld (runtime : RuntimeController) : World :=
  {| manager := newManager runtime;
     imports := 0; constructions := 0; initStarted := []; initCompleted := [] |}.

(** A call of [getInstance()], by the [await] it is suspended at. *)
Inductive Call : Type :=
| Invoked                    (* called, nothing evaluated yet *)
| AwaitImport                (* in [loadModule], at [await import(...)] *)
| AwaitClass                 (* at [await this.getClass()], module known *)
| AwaitInit (i : nat)        (* at the [await] of the init hook of instance [i] *)
| Fulfilled (i : nat)        (* returned [this.instance], which was [i] *)
| Failed (e : JsError).      (* the promise of the call rejected *)

Definition finished (c : Call) : bool :=
  match c with
  | Fulfilled _ | Failed _ => true
  | _ => false
  end.

Section GetInstance.
Variable env : Environment.

(** Run one call from where it is suspended to its next [await] (or
    to its end). *)
Definition resume (w : World) (c : Call) : World * Call :=
  let m := manager w in
  match c with
  | Invoked =>
      match instance m with
      | Some i => (w, Fulfilled i)                       (* [!this.instance] is false *)
      | None =>
          if module m then (w, AwaitClass)               (* [loadModule] returns the cached module *)
          else ({| manager := m; imports := S (imports w);
                   constructions := constructions w;
                   initStarted := initStarted w;
                   initCompleted := initCompleted w |}, AwaitImport)
      end
  | AwaitImport =>
      if import_ok env then
        ({| manager := {| runtime := runtime m; module := true;
                          instance := instance m;
                          initialized := initialized m |};
            imports := imports w; constructions := constructions w;
            initStarted := initStarted w;
            initCompleted := initCompleted w |}, AwaitClass)
      else (w, Failed (Error "Cannot find module"))
  | AwaitClass =>
      let k := constructions w in
      if construct_ok env k then
        if negb (initialized m) then
          ({| manager := {| runtime := runtime m; module := module m;
                            instance := Some k;
                            initialized := initialized m |};
              imports := imports w; constructions := S k;
              initStarted := initStarted w ++ [k];
              initCompleted := initCompleted w |}, AwaitInit k)
        else
          ({| manager := {| runtime := runtime m; module := module m;
                            instance := Some k;
                            initialized := initialized m |};
              imports := imports w; constructions := S k;
              initStarted := initStarted w;
              initCompleted := initCompleted w |}, Fulfilled k)
      else
        ({| manager := m; imports := imports w; constructions := S k;
            initStarted := initStarted w;
            initCompleted := initCompleted w |},
         Failed (Error "constructor failed"))
  | AwaitInit i =>
      if init_ok env i then
        ({| manager := {| runtime := runtime m; module := module m;
                          instance := instance m; initialized := true |};
            imports := imports w; constructions := constructions w;
            initStarted := initStarted w;
            initCompleted := initCompleted w ++ [i] |},
         Fulfilled (default i (instance m)))             (* [return this.instance] *)
      else (w, Failed (Error "init failed"))
  | Fulfilled _ | Failed _ => (w, c)
  end.

(** The calls in flight share one world. *)
Definition System : Type := World * list Call.

(** The scheduler resumes call number [n]. *)
Definition step (n : nat) (s : System) : System :=
  match snd s !! n with
  | Some c =>
      let wc := resume (fst s) c in
      (fst wc, <[n := snd wc]> (snd s))
  | None => s
  end.

Definition run (schedule : list nat) (s : System) : System :=
  fold_left (λ s n, step n s) schedule s.

(** One call run to completion with nothing else in between: four
    resumptions reach the end from [Invoked]. *)
Definition getInstance (w : World) : World * Call :=
  let s := run [0; 0; 0; 0]%nat (w, [Invoked]) in
  (fst s, default Invoked (snd s !! 0%nat)).

End GetInstance.

(** ** The listener after the route is found *)

(** [new NodeRequestExtractor(request, url, routeMatch.pathParameters, body)]:
    the class is in [./nodeRequestExtractor], the listener only builds it.
    [ext_url] is the text the [URL] object was made from. *)
Record NodeRequestExtractor : Type := {
  ext_request : IncomingMessage;
  ext_url : string;
  ext_pathParameters : gmap string string;
  ext_body : option Body
}.

(** [route.inputs.find(i => i.location === 'body')] *)
Definition bodyInput (r : RuntimeRoute) : option RuntimeInput :=
  List.find (λ i, match location i with loc_body => true | _ => false end)
    (inputs r).

(** The managers the setup loop makes, one per controller, before any
    request. *)
Definition managers (app : RuntimeApp) : list World :=
  map newWorld (controllers app).

Section Serve.
Context `{Builtins}.

Variable statusCodeToDesc : Z → string.
Variable RouteMatcher_match : list string → string → option RouteMatch.

(** [getRawBody] of the [raw-body] package, on the request read through
    the given stream. *)
Variable getRawBody : IncomingMessage → Readable → Options → Completion Body.

(** [processRequest] of [@apimda/runtime] as this adapter calls it:
    extractor, route, controller instance, and the validator built from
    the app. *)
Variable processRequest :
  NodeRequestExtractor → RuntimeRoute → nat → RuntimeApp → Completion RuntimeResult.

(** What the world outside does to the manager of each controller. *)
Variable env : nat → Environment.

(** The listener of [createRequestListener(app)], serving one request with
    no other request in flight. It answers with the response it has ended,
    or throws what rejects its promise, in which case nothing was written.
    The managers are those of the setup loop as earlier requests left
    them; a manager number outside them does not come out of [routeMap],
    and a call of [getInstance] run alone has always settled. *)
Definition requestListener (app : RuntimeApp) (ms : list World)
    (request : IncomingMessage) : list World * Completion ServerResponse :=
  match requestListener_route statusCodeToDesc RouteMatcher_match app request with
  | Responded response => (ms, Return response)
  | Rejected e => (ms, Throw e)
  | Dispatch manager r routeMatch =>
      let body :=
        match bodyInput r with
        | Some input =>
            bind (getRawBody request (fst (getBody request input))
                    (snd (getBody request input)))
                 (λ b, Return (Some b))
        | None => Return None
        end in
      match body with
      | Throw e => (ms, Throw e)
      | Return body =>
          let extractor :=
            {| ext_request := request;
               ext_url := default "" (url request);
               ext_pathParameters := pathParameters routeMatch;
               ext_body := body |} in
          match ms !! manager with
          | None => (ms, Throw TypeError)
          | Some w =>
              let called := getInstance (env manager) w in
              let ms' := <[manager := fst called]> ms in
              match snd called with
              | Fulfilled instance =>
                  (ms',
                   bind (processRequest extractor r instance app)
                        (λ result, Return (sendResultResponse result)))
              | Failed e => (ms', Throw e)
              | _ => (ms', Throw TypeError)
              end
          end
      end
  end.

End Serve.

(** [const body = bodyInput ? await getBody(request, bodyInput) : undefined]
    and the extractor built from it, as [requestListener] has them. *)
Definition readBody
    (getRawBody : IncomingMessage → Readable → Options → Completion Body)
    (request : IncomingMessage) (r : RuntimeRoute) : Completion (option Body) :=
  match bodyInput r with
  | Some input =>
      bind (getRawBody request (fst (getBody request input))
              (snd (getBody request input)))
           (λ b, Return (Some b))
  | None => Return None
  end.

Definition extractorOf (request : IncomingMessage) (routeMatch : RouteMatch)
    (body : option Body) : NodeRequestExtractor :=
  {| ext_request := request;
     ext_url := default "" (url request);
     ext_pathParameters := pathParameters routeMatch;
     ext_body := body |}.

End Node.

(** * Notions the properties are stated with *)

Module Spec.

(** The cookie lookup in the words of the specification: every entry of
    the list is cut at its first [=], and the value of the first entry
    whose name is [name] is returned; [None] stands for [undefined]. *)
Fixpoint cookie_lookup (name : string) (cookies : list string) : option string :=
  match cookies with
  | [] => None
  | cookie :: rest =>
      match JsString.split_first_eq cookie with
      | Some (n, v) =>
          if bool_decide (n = name) then Some v else cookie_lookup name rest
      | None => cookie_lookup name rest
      end
  end.

(** The same lookup over the entries whose name is not empty. *)
Definition named (cookie : string) : bool :=
  match JsString.split_first_eq cookie with
  | Some (n, _) => negb (bool_decide (n = ""))
  | None => false
  end.

Definition of_option `{Builtins} {T} (o : option string) : Extracted T :=
  match o with
  | Some v => VString v
  | None => undefined
  end.

(** An input the event does not carry. A header is absent when no key of
    the header map is its name in any letter case; a cookie when no
    entry, cut at its first [=], has its name; the body when it is
    [undefined] or empty. The event itself is never absent. *)
Definition absent (event : Lambda.Event) (input : RuntimeInput) : Prop :=
  match location input with
  | loc_request => False
  | loc_query => default ∅ (Lambda.queryStringParameters event) !! name input = None
  | loc_path => default ∅ (Lambda.pathParameters event) !! name input = None
  | loc_header =>
      ∀ k, JsString.differ_only_in_case k (name input) →
           default ∅ (Lambda.headers event) !! k = None
  | loc_cookie =>
      ∀ c n v, c ∈ default [] (Lambda.cookies event) →
               JsString.split_first_eq c = Some (n, v) → n ≠ name input
  | loc_body => Lambda.body event = None ∨ Lambda.body event = Some ""
  | loc_other _ => False
  end.

(** An input whose property read cannot fall on a member of
    [Object_prototype]. *)
Definition plainly_named (input : RuntimeInput) : Prop :=
  match location input with
  | loc_query | loc_path => name input ∉ Object_prototype
  | loc_header => JsString.toLowerCase (name input) ∉ Object_prototype
  | _ => True
  end.

Definition with_required (r : option bool) (input : RuntimeInput) : RuntimeInput :=
  {| location := location input; name := name input;
     declaredTypeName := declaredTypeName input; required := r |}.

Definition with_headers (hs : gmap string string) (event : Lambda.Event)
  : Lambda.Event :=
  {| Lambda.routeKey := Lambda.routeKey event;
     Lambda.queryStringParameters := Lambda.queryStringParameters event;
     Lambda.pathParameters := Lambda.pathParameters event;
     Lambda.headers := Some hs;
     Lambda.cookies := Lambda.cookies event;
     Lambda.body := Lambda.body event;
     Lambda.isBase64Encoded := Lambda.isBase64Encoded event |}.


(** [n] calls of [getInstance()], each awaited before the next is made. *)
Fixpoint sequential (env : Node.Environment) (n : nat) (w : Node.World)
  : Node.World * list Node.Call :=
  match n with
  | O => (w, [])
  | S n' =>
      let wc := Node.getInstance env w in
      let rest := sequential env n' (fst wc) in
      (fst rest, snd wc :: snd rest)
  end.

Definition with_body (text : string) (event : Lambda.Event) : Lambda.Event :=
  {| Lambda.routeKey := Lambda.routeKey event;
     Lambda.queryStringParameters := Lambda.queryStringParameters event;
     Lambda.pathParameters := Lambda.pathParameters event;
     Lambda.headers := Lambda.headers event;
     Lambda.cookies := Lambda.cookies event;
     Lambda.body := Some text;
     Lambda.isBase64Encoded := Lambda.isBase64Encoded event |}.

(** The value an object gives a name when its properties are listed in
    order: that of the first entry with the name. *)
Fixpoint assoc (name : string) (cookies : list (string * Scalar)) : option Scalar :=
  match cookies with
  | [] => None
  | c :: rest => if bool_decide (fst c = name) then Some (snd c) else assoc name rest
  end.

(** A cookie name the event-side parser reads back: not empty, without
    [=]. *)
Definition plain_name (n : string) : Prop :=
  n ≠ "" ∧ JsString.split_first_eq n = None.

(** The routes of an app with their controllers, in the order the setup
    loops of both adapters visit them. *)
Definition registrations (app : RuntimeApp) : list (RuntimeController * RuntimeRoute) :=
  flat_map (λ c, map (pair c) (routes c)) (controllers app).

(** The entry [routesByPath] stores for a route of a controller. *)
Definition routeInfo (cr : RuntimeController * RuntimeRoute) : Lambda.RouteInfo :=
  {| Lambda.controllerManager := fst cr; Lambda.route := snd cr |}.

(** The routes of a list of controllers with the numbers of their
    controllers, counted from [i]. *)
Fixpoint numbered (i : nat) (cs : list RuntimeController) : list (nat * RuntimeRoute) :=
  match cs with
  | [] => []
  | c :: cs' => map (pair i) (routes c) ++ numbered (S i) cs'
  end.

(** [n] calls of [getInstance()] made on a fresh manager, none resumed
    yet. *)
Definition fresh (runtime : RuntimeController) (n : nat) : Node.System :=
  (Node.newWorld runtime, repeat Node.Invoked n).

(** A call that has evaluated [import(...)], and one that has evaluated
    [new clazz(args)]. *)
Definition imported (c : Node.Call) : bool :=
  match c with
  | Node.Invoked | Node.Fulfilled _ => false
  | _ => true
  end.

Definition past_construction (c : Node.Call) : bool :=
  match c with
  | Node.AwaitInit _ | Node.Fulfilled _ | Node.Failed _ => true
  | _ => false
  end.

(** An upper bound on the resumptions a call still needs. *)
Definition remaining (c : Node.Call) : nat :=
  match c with
  | Node.Invoked => 4
  | Node.AwaitImport => 3
  | Node.AwaitClass => 2
  | Node.AwaitInit _ => 1
  | Node.Fulfilled _ | Node.Failed _ => 0
  end.

(** The instance a call holds, if any. *)
Definition holds (c : Node.Call) : option nat :=
  match c with
  | Node.AwaitInit i | Node.Fulfilled i => Some i
  | _ => None
  end.

(** What is true of the calls and the world they share in every state
    reached from fresh calls. *)
Definition coherent (s : Node.System) : Prop :=
  let w := fst s in
  (Node.constructions w ≤ length (filter (λ c, past_construction c = true) (snd s)))%nat ∧
  (length (Node.initStarted w) ≤ Node.constructions w)%nat ∧
  (∀ i, Node.instance (Node.manager w) = Some i → (i < Node.constructions w)%nat) ∧
  (∀ c i, c ∈ snd s → holds c = Some i → (i < Node.constructions w)%nat) ∧
  (∀ i, i ∈ Node.initCompleted w → i ∈ Node.initStarted w) ∧
  (∀ i, Node.AwaitInit i ∈ snd s → i ∈ Node.initStarted w) ∧
  (∀ i, i ∈ Node.initStarted w → (i < Node.constructions w)%nat).

(** What is true of the instances in every state reached from fresh
    calls: whatever is cached, held by a call or had its hook started
    came out of a [new] that returned, and a hook has completed only
    where it fulfilled. *)
Definition built (env : Node.Environment) (s : Node.System) : Prop :=
  let w := fst s in
  (∀ i, Node.instance (Node.manager w) = Some i → Node.construct_ok env i = true) ∧
  (∀ c i, c ∈ snd s → holds c = Some i → Node.construct_ok env i = true) ∧
  (∀ i, i ∈ Node.initStarted w → Node.construct_ok env i = true) ∧
  (∀ i, i ∈ Node.initCompleted w → Node.init_ok env i = true).

End Spec.

(** * Concrete inputs *)

Module Examples.

(** A small platform to run the adapters on: its JSON documents are the
    literals [true] and [false], base64 is read as the bytes of the
    text, and every URL is its own path. *)
#[local] Instance platform : Builtins := {|
  JsonValue := bool;
  JSON_parse s :=
    if bool_decide (s = "true") then Some true
    else if bool_decide (s = "false") then Some false
    else None;
  URL_pathname u := Some u;
  Buffer_from_base64 s := String.list_byte_of_string s;
  Buffer_toString_base64 b := String.string_of_list_byte b
|}.

Definition event : Lambda.Event :=
  {| Lambda.routeKey := "GET /users";
     Lambda.queryStringParameters := None;
     Lambda.pathParameters := None;
     Lambda.headers := Some {[ "x-token" := "abc" ]};
     Lambda.cookies := Some ["=v"; "sid=a=b"];
     Lambda.body := Some "{";
     Lambda.isBase64Encoded := false |}.

Definition input (l : InputLocation) (n t : string) : RuntimeInput :=
  {| location := l; name := n; declaredTypeName := t; required := None |}.

Definition file : RuntimeInput := input loc_body "file" "Buffer".
Definition order : RuntimeInput := input loc_body "order" "Order".
Definition sid : RuntimeInput := input loc_cookie "sid" "string".
Definition token : RuntimeInput := input loc_header "X-Token" "string".
Definition page : RuntimeInput := input loc_query "page" "number".
Definition unnamed : RuntimeInput := input loc_cookie "" "string".

Definition constructor : RuntimeInput := input loc_query "constructor" "string".
Definition Constructor : RuntimeInput := input loc_header "Constructor" "string".

Definition getUsers : RuntimeRoute :=
  {| method := "get"; path := "/users"; methodName := "list"; inputs := [] |}.

Definition users : RuntimeController :=
  {| className := "Users"; moduleName := "./users"; ctorEnvNames := [];
     initMethodName := Some "init"; routes := [getUsers] |}.

Definition app : RuntimeApp := {| controllers := [users] |}.

Definition result (hs : gmap string Scalar) : RuntimeResult :=
  {| statusCode := 200; result_headers := hs; result_cookies := [];
     result_body := BodyText "{}"; isBinary := false |}.

(** A dispatcher that answers every request with an empty 200. *)
Definition processRequest (_ : Lambda.Event)
    (_ : RuntimeInput → Completion (Extracted Lambda.Event))
    (_ : RuntimeRoute) (_ : RuntimeController) (_ : RuntimeApp)
  : Completion RuntimeResult :=
  Return (result ∅).

(** Everything outside the manager succeeds. *)
Definition fair : Node.Environment :=
  {| Node.import_ok := true;
     Node.construct_ok := λ _, true;
     Node.init_ok := λ _, true |}.

(** The init hook rejects on the first instance it is run on. *)
Definition init_fails_once : Node.Environment :=
  {| Node.import_ok := true;
     Node.construct_ok := λ _, true;
     Node.init_ok := λ i, negb (Nat.eqb i 0) |}.

(** The first construction throws. *)
Definition construct_fails_once : Node.Environment :=
  {| Node.import_ok := true;
     Node.construct_ok := λ k, negb (Nat.eqb k 0);
     Node.init_ok := λ _, true |}.

(** A matcher that knows the literal paths it was given. *)
Definition matcher (added : list string) (routePath : string) : option Node.RouteMatch :=
  if bool_decide (routePath ∈ added)
  then Some {| Node.match_path := routePath; Node.pathParameters := ∅ |}
  else None.

Definition description (status : Z) : string :=
  if bool_decide (status = 404) then "Not Found" else "Internal Server Error".

Definition request (m u : string) : Node.IncomingMessage :=
  {| Node.url := Some u; Node.req_method := Some m;
     Node.req_headers := {[ "content-encoding" := "GZIP" ]} |}.

(** A route that takes the request body as a [Buffer]. *)
Definition putFile : RuntimeRoute :=
  {| method := "put"; path := "/file"; methodName := "store"; inputs := [page; file] |}.

Definition files : RuntimeController :=
  {| className := "Files"; moduleName := "./files"; ctorEnvNames := ["BUCKET"];
     initMethodName := None; routes := [putFile] |}.

Definition site : RuntimeApp := {| controllers := [users; files] |}.

(** A reader that always finds the body too large. *)
Definition tooLarge (_ : Node.IncomingMessage) (_ : Node.Readable) (_ : Node.Options)
  : Completion Body :=
  Throw (HttpError 413 "request entity too large").

Definition emptyBody (_ : Node.IncomingMessage) (_ : Node.Readable) (_ : Node.Options)
  : Completion Body :=
  Return (BodyBuffer []).

Definition answer (_ : Node.NodeRequestExtractor) (_ : RuntimeRoute) (_ : nat)
    (_ : RuntimeApp) : Completion RuntimeResult :=
  Return (result ∅).

(** A second controller that registers the key of [getUsers] again. *)
Definition listUsers : RuntimeRoute :=
  {| method := "GET"; path := "/users"; methodName := "all"; inputs := [] |}.

Definition admins : RuntimeController :=
  {| className := "Admins"; moduleName := "./admins"; ctorEnvNames := [];
     initMethodName := None; routes := [listUsers] |}.

Definition twice : RuntimeApp := {| controllers := [users; admins] |}.

(** A matcher that answers a path nobody added. *)
Definition lost (_ : list string) (_ : string) : option Node.RouteMatch :=
  Some {| Node.match_path := "nowhere"; Node.pathParameters := ∅ |}.

(** The manager of [users] after a first successful call. *)
Definition ready : Node.World :=
  {| Node.manager :=
       {| Node.runtime := users; Node.module := true;
          Node.instance := Some 0%nat; Node.initialized := true |};
     Node.imports := 1; Node.constructions := 1;
     Node.initStarted := [0%nat]; Node.initCompleted := [0%nat] |}.

Definition twoCookies : list (string * Scalar) :=
  [("sid", SString "a=b"); ("visits", SNumber 5)].

End Examples.

(** * Facts about strings *)

Section StringFacts.
Import JsString.

Lemma lower_char_not_upper c : is_upper (lower_char c) = false.
Proof. destruct c as [[] [] [] [] [] [] [] []]; reflexivity. Qed.

Lemma toLowerCase_no_upper s : has_upper (toLowerCase s) = false.
Proof.
  induction s as [|c s IH]; [reflexivity|].
  cbn [toLowerCase has_upper]. now rewrite lower_char_not_upper, IH.
Qed.

Lemma toLowerCase_neq_upper s k : has_upper k = true → toLowerCase s ≠ k.
Proof.
  intros Hk Heq. rewrite <- Heq, toLowerCase_no_upper in Hk. discriminate.
Qed.

Lemma letter_pair_lower u l :
  letter_pair u l → lower_char u = l ∧ lower_char l = l.
Proof.
  intros [Hu Hl].
  assert (l = ascii_of_N (N_of_ascii u + 32)) as ->
    by (rewrite <- Hl; symmetry; apply ascii_N_embedding).
  clear Hl. revert Hu.
  destruct u as [[] [] [] [] [] [] [] []]; vm_compute; intros; try discriminate; auto.
Qed.

Lemma same_letter_lower c d : same_letter c d → lower_char c = lower_char d.
Proof.
  intros [-> | [Hp | Hp]]; [reflexivity | |];
    destruct (letter_pair_lower _ _ Hp) as [H1 H2]; congruence.
Qed.

Lemma differ_only_in_case_lower a b :
  differ_only_in_case a b → toLowerCase a = toLowerCase b.
Proof.
  induction 1 as [|c d s t Hcd _ IH]; [reflexivity|].
  cbn [toLowerCase]. f_equal; [now apply same_letter_lower | exact IH].
Qed.

(** [split_first_eq] cuts at an [=] that nothing before it contains. *)
Lemma split_first_eq_Some s n v :
  split_first_eq s = Some (n, v) ↔
  s = n +:+ "=" +:+ v ∧ split_first_eq n = None.
Proof.
  revert n v. induction s as [|c s IH]; intros n v; cbn [split_first_eq].
  - split; [discriminate|]. intros [Hs _]. destruct n; discriminate.
  - case_bool_decide as Hc.
    + subst c. split.
      * intros [= <- <-]. split; reflexivity.
      * intros [Hs Hn]. destruct n as [|c' n'].
        -- cbn in Hs. now injection Hs as ->.
        -- cbn in Hs. injection Hs as <- _. cbn [split_first_eq] in Hn.
           rewrite bool_decide_eq_true_2 in Hn by reflexivity. discriminate.
    + destruct (split_first_eq s) as [[n' v']|] eqn:Hsp.
      * split.
        -- intros [= <- <-]. destruct (proj1 (IH n' v') eq_refl) as [-> Hn'].
           split; [reflexivity|]. cbn [split_first_eq].
           rewrite bool_decide_eq_false_2 by exact Hc. now rewrite Hn'.
        -- intros [Hs Hn]. destruct n as [|c' n''].
           ++ cbn in Hs. injection Hs as -> _. now contradict Hc.
           ++ cbn in Hs. injection Hs as <- Hs.
              cbn [split_first_eq] in Hn.
              rewrite bool_decide_eq_false_2 in Hn by exact Hc.
              destruct (split_first_eq n'') as [[? ?]|] eqn:Hn''; [discriminate|].
              assert (Some (n', v') = Some (n'', v)) as [= -> ->]
                by (apply IH; split; [exact Hs | exact Hn'']).
              reflexivity.
      * split; [discriminate|]. intros [Hs Hn]. destruct n as [|c' n''].
        -- cbn in Hs. injection Hs as -> _. now contradict Hc.
        -- cbn in Hs. injection Hs as <- Hs. cbn [split_first_eq] in Hn.
           rewrite bool_decide_eq_false_2 in Hn by exact Hc.
           destruct (split_first_eq n'') as [[? ?]|] eqn:Hn''; [discriminate|].
           assert (None = Some (n'', v)) by (apply IH; split; assumption).
           discriminate.
Qed.

Lemma index_eq_cons c s :
  String.index 0 "=" (String c s) =
  if bool_decide (c = "="%char) then Some 0%nat
  else S <$> String.index 0 "=" s.
Proof.
  cbn [String.index String.prefix].
  destruct (ascii_dec "=" c) as [<-|Hne].
  - rewrite bool_decide_eq_true_2 by reflexivity. now destruct s.
  - rewrite bool_decide_eq_false_2 by congruence.
    now destruct (String.index 0 "=" s).
Qed.

Lemma index_eq_split s :
  String.index 0 "=" s = (λ nv, String.length (fst nv)) <$> split_first_eq s.
Proof.
  induction s as [|c s IH]; [reflexivity|].
  rewrite index_eq_cons. cbn [split_first_eq].
  case_bool_decide; [reflexivity|]. rewrite IH.
  now destruct (split_first_eq s) as [[? ?]|].
Qed.

Lemma append_cons c a b : String c a +:+ b = String c (a +:+ b).
Proof. reflexivity. Qed.

Lemma append_assoc a b c : (a +:+ b) +:+ c = a +:+ b +:+ c.
Proof.
  induction a as [|x a IH]; [reflexivity|].
  rewrite !append_cons. now rewrite IH.
Qed.

Lemma substring_prefix a b :
  String.substring 0 (String.length a) (a +:+ b) = a.
Proof.
  induction a as [|c a IH]; [now destruct b|].
  rewrite append_cons. cbn [String.length String.substring]. now rewrite IH.
Qed.

Lemma substring_all s : String.substring 0 (String.length s) s = s.
Proof. induction s as [|c s IH]; cbn; [reflexivity | now rewrite IH]. Qed.

Lemma substring_suffix a b :
  String.substring (String.length a) (String.length b) (a +:+ b) = b.
Proof.
  induction a as [|c a IH]; [apply substring_all|].
  rewrite append_cons. cbn [String.length String.substring]. exact IH.
Qed.

Lemma length_append a b :
  String.length (a +:+ b) = (String.length a + String.length b)%nat.
Proof.
  induction a as [|c a IH]; [reflexivity|].
  rewrite append_cons. cbn [String.length]. now rewrite IH.
Qed.

(** What [indexOf], [substring(0, eqIdx)] and [substring(eqIdx + 1)]
    compute on an entry that has an [=]. *)
Lemma indexOf_split s n v :
  split_first_eq s = Some (n, v) →
  indexOf s "=" = Z.of_nat (String.length n) ∧
  substring s 0 (indexOf s "=") = n ∧
  substringFrom s (indexOf s "=" + 1) = v.
Proof.
  intros Hs. assert (Hi : indexOf s "=" = Z.of_nat (String.length n)).
  { unfold indexOf. now rewrite index_eq_split, Hs. }
  rewrite Hi. apply split_first_eq_Some in Hs as [-> _].
  split; [reflexivity|]. unfold substringFrom, substring.
  rewrite !length_append. cbn [String.length].
  split.
  - replace (Z.to_nat _) with 0%nat by lia.
    replace (Z.to_nat _) with (String.length n) by lia.
    apply substring_prefix.
  - replace (Z.to_nat (Z.min _ _)) with (String.length (n +:+ "=")).
    2:{ rewrite length_append. cbn [String.length]. lia. }
    replace (Z.to_nat _) with (String.length v) by lia.
    rewrite <- append_assoc. apply substring_suffix.
Qed.

Lemma indexOf_no_eq s : split_first_eq s = None → indexOf s "=" = -1.
Proof. intros Hs. unfold indexOf. now rewrite index_eq_split, Hs. Qed.

End StringFacts.

(** * Input extraction from a gateway event *)

Section LambdaExtraction.
Context `{Builtins}.
Import JsString.

Lemma toLowerCase_differs_only_in_case s : differ_only_in_case (toLowerCase s) s.
Proof.
  induction s as [|c s IH]; cbn [toLowerCase]; constructor; [|exact IH].
  unfold same_letter. destruct (is_upper c) eqn:Hc.
  - right; right. split; [exact Hc|]. unfold lower_char. rewrite Hc.
    apply N_ascii_embedding. unfold is_upper in Hc.
    apply andb_true_iff in Hc as [_ Hc]. apply N.leb_le in Hc. lia.
  - left. unfold lower_char. now rewrite Hc.
Qed.

Lemma findCookie_spec name cookies :
  Lambda.findCookie (T := Lambda.Event) name cookies =
  Spec.of_option (Spec.cookie_lookup name (filter (λ c, Spec.named c = true) cookies)).
Proof.
  induction cookies as [|c cs IH]; [reflexivity|].
  cbn [Lambda.findCookie]. rewrite filter_cons.
  destruct (split_first_eq c) as [[n v]|] eqn:Hs.
  - destruct (indexOf_split _ _ _ Hs) as (Hi & Hn & Hv).
    rewrite Hn, Hv, Hi.
    destruct n as [|x n].
    + rewrite decide_False
        by (unfold Spec.named; rewrite Hs, bool_decide_eq_true_2 by reflexivity;
            cbn; congruence).
      cbn. exact IH.
    + replace (0 <? _) with true by (symmetry; apply Z.ltb_lt; cbn; lia).
      rewrite decide_True
        by (unfold Spec.named; now rewrite Hs, bool_decide_eq_false_2).
      cbn [Spec.cookie_lookup]. rewrite Hs.
      rewrite (bool_decide_ext (name = String x n) (String x n = name))
        by (split; congruence).
      case_bool_decide; [reflexivity | exact IH].
  - rewrite (indexOf_no_eq _ Hs).
    rewrite decide_False by (unfold Spec.named; rewrite Hs; congruence).
    cbn. exact IH.
Qed.

Lemma cookie_lookup_named name cookies :
  name ≠ "" →
  Spec.cookie_lookup name (filter (λ c, Spec.named c = true) cookies) =
  Spec.cookie_lookup name cookies.
Proof.
  intros Hname. induction cookies as [|c cs IH]; [reflexivity|].
  rewrite filter_cons. cbn [Spec.cookie_lookup].
  destruct (split_first_eq c) as [[n v]|] eqn:Hs.
  - destruct (decide (n = "")) as [->|Hn].
    + rewrite decide_False
        by (unfold Spec.named; rewrite Hs, bool_decide_eq_true_2 by reflexivity;
            cbn; congruence).
      rewrite bool_decide_eq_false_2 by congruence. exact IH.
    + rewrite decide_True
        by (unfold Spec.named; now rewrite Hs, bool_decide_eq_false_2).
      cbn [Spec.cookie_lookup]. rewrite Hs, IH. reflexivity.
  - rewrite decide_False by (unfold Spec.named; rewrite Hs; congruence).
    exact IH.
Qed.

Lemma cookie_lookup_unnamed cookies :
  Spec.cookie_lookup "" (filter (λ c, Spec.named c = true) cookies) = None.
Proof.
  induction cookies as [|c cs IH]; [reflexivity|].
  rewrite filter_cons. case_decide as Hc; [|exact IH].
  cbn [Spec.cookie_lookup]. unfold Spec.named in Hc.
  destruct (split_first_eq c) as [[n v]|]; [|exact IH].
  case_bool_decide as Hn; [cbn in Hc; discriminate | exact IH].
Qed.

Lemma cookie_lookup_None name cookies :
  (∀ c n v, c ∈ cookies → split_first_eq c = Some (n, v) → n ≠ name) →
  Spec.cookie_lookup name cookies = None.
Proof.
  induction cookies as [|c cs IH]; intros Hall; [reflexivity|].
  cbn [Spec.cookie_lookup].
  assert (IH' : Spec.cookie_lookup name cs = None).
  { apply IH. intros c' n v Hin. apply Hall. now right. }
  destruct (split_first_eq c) as [[n v]|] eqn:Hs; [|exact IH'].
  rewrite bool_decide_eq_false_2; [exact IH'|].
  apply (Hall c n v); [left | exact Hs].
Qed.

(** The cookie branch of [extract] in terms of [Spec.cookie_lookup]. *)
Lemma extract_cookie event input :
  location input = loc_cookie →
  Lambda.LambdaExtractor_extract event input =
  Return (Spec.of_option
            (Spec.cookie_lookup (name input)
               (filter (λ c, Spec.named c = true)
                  (default [] (Lambda.cookies event))))).
Proof.
  intros Hloc. unfold Lambda.LambdaExtractor_extract. rewrite Hloc.
  destruct (Lambda.cookies event) as [cs|]; [|reflexivity].
  now rewrite findCookie_spec.
Qed.

(** A property read that cannot fall on an inherited member is the
    lookup among the own properties. *)
Lemma prop_plain (obj : option (gmap string string)) key :
  key ∉ Object_prototype →
  Lambda.prop (T := Lambda.Event) obj key = Spec.of_option (default ∅ obj !! key).
Proof.
  intros Hkey. unfold Lambda.prop, get.
  destruct (default ∅ obj !! key); [reflexivity|].
  now rewrite bool_decide_eq_false_2.
Qed.

(** A property read of a name [Object.prototype] has, on an object
    without an own property of that name, finds the inherited member. *)
Lemma prop_inherited (obj : option (gmap string string)) key :
  key ∈ Object_prototype →
  default ∅ obj !! key = None →
  Lambda.prop (T := Lambda.Event) obj key = VInherited key.
Proof.
  intros Hkey Hnone. unfold Lambda.prop, get.
  now rewrite Hnone, bool_decide_eq_true_2.
Qed.

(** The header branch of [extract]. *)
Lemma extract_header event input :
  location input = loc_header →
  Lambda.LambdaExtractor_extract event input =
  Return (Lambda.prop (Lambda.headers event) (toLowerCase (name input))).
Proof.
  intros Hloc. unfold Lambda.LambdaExtractor_extract. now rewrite Hloc.
Qed.

Lemma lower_char_id c : is_upper c = false → lower_char c = c.
Proof. intros Hc. unfold lower_char. now rewrite Hc. Qed.

Lemma toLowerCase_id s : has_upper s = false → toLowerCase s = s.
Proof.
  induction s as [|c s IH]; [reflexivity|]. cbn [has_upper toLowerCase].
  intros Hs. apply orb_false_iff in Hs as [Hc Hs].
  now rewrite (lower_char_id _ Hc), IH.
Qed.

(** The key a header is looked up under is the one spelling of the input
    name that has no upper-case letter. *)
Lemma lowercase_spelling k s :
  differ_only_in_case k s → has_upper k = false → toLowerCase s = k.
Proof.
  intros Hcase Hk. rewrite <- (differ_only_in_case_lower _ _ Hcase).
  now apply toLowerCase_id.
Qed.

(** C7, as amended. For a cookie input whose name is not empty,
    extraction cuts every entry of the event's cookie list at its first
    [=] (the value may contain further [=]) and returns the value of the
    first entry whose name is the input's name, [undefined] when there is
    none or the event has no cookie list. An entry whose [=] is its first
    character is skipped, so an input with the empty name always
    extracts [undefined]. *)
Theorem cookie_extraction_first_named_entry :
  ∀ event input,
    location input = loc_cookie →
    (name input ≠ "" →
     Lambda.LambdaExtractor_extract event input =
     Return (Spec.of_option
               (Spec.cookie_lookup (name input)
                  (default [] (Lambda.cookies event))))) ∧
    (name input = "" →
     Lambda.LambdaExtractor_extract event input = Return undefined).
Proof.
  intros event input Hloc. rewrite (extract_cookie _ _ Hloc). split.
  - intros Hname. now rewrite cookie_lookup_named.
  - intros ->. now rewrite cookie_lookup_unnamed.
Qed.

(** Header extraction of a name that, lower-cased, is no member of
    [Object_prototype]: the header is looked up under the spelling of the
    input name without upper-case letters, a value is returned exactly
    when that key is present, two input names that differ only in letter
    case extract the same, and an entry stored under a key with an
    upper-case letter has no effect. *)
Lemma header_extraction_of_plain_name event input :
  location input = loc_header →
  toLowerCase (name input) ∉ Object_prototype →
  (∀ k, differ_only_in_case k (name input) → has_upper k = false →
        (∀ v, Lambda.LambdaExtractor_extract event input = Return (VString v) ↔
              default ∅ (Lambda.headers event) !! k = Some v) ∧
        (Lambda.LambdaExtractor_extract event input = Return undefined ↔
         default ∅ (Lambda.headers event) !! k = None)) ∧
  (∀ input', location input' = loc_header →
             differ_only_in_case (name input) (name input') →
             Lambda.LambdaExtractor_extract event input' =
             Lambda.LambdaExtractor_extract event input) ∧
  (∀ k v hs, has_upper k = true →
             Lambda.LambdaExtractor_extract
               (Spec.with_headers (<[k := v]> hs) event) input =
             Lambda.LambdaExtractor_extract (Spec.with_headers hs event) input).
Proof.
  intros Hloc Hplain. rewrite (extract_header _ _ Hloc). split; [|split].
  - intros k Hcase Hk.
    rewrite (prop_plain _ _ Hplain), (lowercase_spelling _ _ Hcase Hk).
    split; [intros v; split | split].
    + destruct (_ !! _); cbn; congruence.
    + intros ->. reflexivity.
    + destruct (_ !! _); cbn; congruence.
    + intros ->. reflexivity.
  - intros input' Hloc' Hcase. rewrite (extract_header _ _ Hloc').
    now rewrite (differ_only_in_case_lower _ _ Hcase).
  - intros k v hs Hk. rewrite !(extract_header _ _ Hloc).
    rewrite !(prop_plain _ _ Hplain). cbn.
    rewrite lookup_insert_ne; [reflexivity|].
    intros ->. now apply (toLowerCase_neq_upper (name input) _ Hk).
Qed.

(** C10, what the code does. The lower-cased name is read as a property
    of the header object: for an input whose lower-cased name is a member
    of [Object.prototype], and an event whose headers have no such key,
    extraction returns the inherited member. A value is returned although
    the headers do not contain the lower-cased name. *)
Theorem header_named_after_inherited_member :
  ∀ event input,
    location input = loc_header →
    toLowerCase (name input) ∈ Object_prototype →
    default ∅ (Lambda.headers event) !! toLowerCase (name input) = None →
    Lambda.LambdaExtractor_extract event input =
      Return (VInherited (toLowerCase (name input))) ∧
    Lambda.LambdaExtractor_extract event input ≠ Return undefined.
Proof.
  intros event input Hloc Hin Hnone. rewrite (extract_header _ _ Hloc).
  rewrite (prop_inherited _ _ Hin Hnone). split; [reflexivity | discriminate].
Qed.

(** An input the event does not carry, and whose property read cannot
    fall on an inherited member, extracts [undefined] and raises nothing,
    at each of the six locations and whatever its [required] flag says. *)
Lemma absent_plain_input_extracts_undefined event input r :
  Spec.plainly_named input →
  Spec.absent event input →
  Lambda.LambdaExtractor_extract event (Spec.with_required r input) =
  Return undefined.
Proof.
  unfold Spec.plainly_named, Spec.absent, Lambda.LambdaExtractor_extract.
  cbn [location name declaredTypeName Spec.with_required].
  destruct (location input); intros Hplain Habs; try contradiction.
  - now rewrite (prop_plain _ _ Hplain), Habs.
  - now rewrite (prop_plain _ _ Hplain), Habs.
  - rewrite (prop_plain _ _ Hplain).
    now rewrite (Habs _ (toLowerCase_differs_only_in_case (name input))).
  - destruct (Lambda.cookies event) as [cs|]; [|reflexivity].
    rewrite findCookie_spec.
    rewrite cookie_lookup_None; [reflexivity|].
    intros c n v Hin. apply Habs. cbn. now apply list_elem_of_filter in Hin as [_ ?].
  - destruct Habs as [-> | ->]; reflexivity.
Qed.

(** C8, what the code does. A query or path input is read as a property
    of a plain object: when its name is a member of [Object.prototype]
    and the event does not carry it, extraction returns the inherited
    member, not [undefined], whatever the [required] flag says. *)
Theorem absent_input_named_after_inherited_member :
  ∀ event input r,
    location input = loc_query ∨ location input = loc_path →
    name input ∈ Object_prototype →
    Spec.absent event input →
    Lambda.LambdaExtractor_extract event (Spec.with_required r input) =
      Return (VInherited (name input)) ∧
    Lambda.LambdaExtractor_extract event (Spec.with_required r input) ≠
      Return undefined.
Proof.
  intros event input r Hloc Hin. unfold Spec.absent, Lambda.LambdaExtractor_extract.
  cbn [location name declaredTypeName Spec.with_required].
  destruct Hloc as [-> | ->]; intros Habs;
    rewrite (prop_inherited _ _ Hin Habs); (split; [reflexivity | discriminate]).
Qed.

(** The flag is not read anywhere in [extract]. *)
Lemma extract_ignores_required event input r :
  Lambda.LambdaExtractor_extract event (Spec.with_required r input) =
  Lambda.LambdaExtractor_extract event input.
Proof. reflexivity. Qed.

(** C4. A body input declared [Buffer] with a non-empty body: without
    the event's base64 flag extraction throws an [HttpError] of status
    400, with the flag it returns the base64-decoded bytes. *)
Theorem binary_body_needs_base64_flag :
  ∀ event input text,
    location input = loc_body →
    declaredTypeName input = "Buffer" →
    Lambda.body event = Some text →
    text ≠ "" →
    (Lambda.isBase64Encoded event = false →
     ∃ message,
       Lambda.LambdaExtractor_extract event input = Throw (HttpError 400 message)) ∧
    (Lambda.isBase64Encoded event = true →
     Lambda.LambdaExtractor_extract event input =
     Return (VBuffer (Buffer_from_base64 text))).
Proof.
  intros event input text Hloc Hty Hbody Htext.
  unfold Lambda.LambdaExtractor_extract. rewrite Hloc, Hbody, Hty.
  rewrite (bool_decide_eq_false_2 _ Htext).
  rewrite bool_decide_eq_false_2 by discriminate.
  rewrite bool_decide_eq_true_2 by reflexivity.
  split; intros ->; cbn; eauto.
Qed.

(** X2. The branches of the body that hold as specified: a [string] input
    gets the text as it is, every type but [string] and [Buffer] gets
    what [JSON.parse] makes of the text. *)
Lemma body_text_or_json event input text :
  location input = loc_body →
  Lambda.body event = Some text →
  text ≠ "" →
  (declaredTypeName input = "string" →
   Lambda.LambdaExtractor_extract event input = Return (VString text)) ∧
  (declaredTypeName input ≠ "string" → declaredTypeName input ≠ "Buffer" →
   ∀ j, JSON_parse text = Some j →
        Lambda.LambdaExtractor_extract event input = Return (VJson j)).
Proof.
  intros Hloc Hbody Htext.
  unfold Lambda.LambdaExtractor_extract. rewrite Hloc, Hbody.
  rewrite (bool_decide_eq_false_2 _ Htext). split.
  - intros ->. now rewrite bool_decide_eq_true_2.
  - intros Hs Hb j Hj. rewrite !bool_decide_eq_false_2 by assumption.
    now rewrite Hj.
Qed.

(** C5, what the code does on a malformed body. A body input of a type
    other than [string] and [Buffer] whose non-empty text [JSON.parse]
    rejects makes [extract] throw the parser's [SyntaxError], which is
    not an [HttpError] and carries no status: not the client error of
    status 400 the [Buffer] branch throws. *)
Theorem malformed_json_body_throws_SyntaxError :
  ∀ event input text,
    location input = loc_body →
    declaredTypeName input ≠ "string" →
    declaredTypeName input ≠ "Buffer" →
    Lambda.body event = Some text →
    text ≠ "" →
    JSON_parse text = None →
    Lambda.LambdaExtractor_extract event input = Throw SyntaxError ∧
    statusOf SyntaxError = None.
Proof.
  intros event input text Hloc Hs Hb Hbody Htext Hparse.
  unfold Lambda.LambdaExtractor_extract. rewrite Hloc, Hbody.
  rewrite (bool_decide_eq_false_2 _ Htext).
  rewrite !bool_decide_eq_false_2 by assumption.
  now rewrite Hparse.
Qed.

End LambdaExtraction.

(** * Route lookup *)

Section RouteLookup.
Context `{Builtins}.

Lemma fold_insert_lookup_None {A V : Type} (key : A → string) (val : A → V)
    (l : list A) (table : gmap string V) (k : string) :
  fold_left (λ t r, <[key r := val r]> t) l table !! k = None ↔
  table !! k = None ∧ ∀ r, r ∈ l → key r ≠ k.
Proof.
  revert table. induction l as [|a l IH]; intros table; cbn [fold_left].
  - split; [intros Ht; split; [exact Ht | intros r Hr; inversion Hr] | now intros [Ht _]].
  - rewrite IH. rewrite lookup_insert_None. split.
    + intros [[Ht Ha] Hl]. split; [exact Ht|].
      intros r Hr. apply elem_of_cons in Hr as [-> | Hr]; [exact Ha | now apply Hl].
    + intros [Ht Hl]. repeat split; [exact Ht | apply Hl; now left |].
      intros r Hr. apply Hl. now right.
Qed.

(** The table has no own entry under a key exactly when no route of any
    controller of the app has it. *)
Lemma routesByPath_None app k :
  Lambda.routesByPath app !! k = None ↔
  ∀ c r, c ∈ controllers app → r ∈ routes c → Lambda.routeKeyOf r ≠ k.
Proof.
  unfold Lambda.routesByPath.
  assert (Hgen : ∀ cs (table : gmap string Lambda.RouteInfo),
    fold_left
      (λ table controller,
         fold_left
           (λ table r,
              <[Lambda.routeKeyOf r :=
                  {| Lambda.controllerManager := controller; Lambda.route := r |}]> table)
           (routes controller) table) cs table !! k = None ↔
    table !! k = None ∧
    ∀ c r, c ∈ cs → r ∈ routes c → Lambda.routeKeyOf r ≠ k).
  { induction cs as [|c cs IH]; intros table; cbn [fold_left].
    - split; [intros Ht; split; [exact Ht | intros c r Hc; inversion Hc] | now intros [Ht _]].
    - rewrite IH.
      rewrite (fold_insert_lookup_None Lambda.routeKeyOf
                 (λ r, {| Lambda.controllerManager := c; Lambda.route := r |})).
      split.
      + intros [[Ht Hc] Hcs]. split; [exact Ht|].
        intros c' r Hc'. apply elem_of_cons in Hc' as [-> | Hc'];
          [apply Hc | now apply Hcs].
      + intros [Ht Hall]. repeat split; [exact Ht | |].
        * intros r. apply Hall. now left.
        * intros c' r Hc'. apply Hall. now right. }
  rewrite Hgen. rewrite lookup_empty. tauto.
Qed.

(** X4. The read [routesByPath[key]] is [undefined] exactly when the key
    names no member of [Object.prototype] and no route of any controller
    of the app has it. *)
Theorem routesByPath_read_undefined :
  ∀ app k,
    get (Lambda.routesByPath app) k = None ↔
    ((k ∉ Object_prototype) ∧
     ∀ c r, c ∈ controllers app → r ∈ routes c → Lambda.routeKeyOf r ≠ k).
Proof.
  intros app k. rewrite <- routesByPath_None. unfold get.
  destruct (Lambda.routesByPath app !! k) as [ri|].
  - split; [discriminate | intros [_ ?]; discriminate].
  - case_bool_decide as Hk.
    + split; [discriminate | intros [Hout _]; contradiction].
    + split; auto.
Qed.

Section LambdaHandler.
Variable processRequest :
  Lambda.Event → (RuntimeInput → Completion (Extracted Lambda.Event)) →
  RuntimeRoute → RuntimeController → RuntimeApp → Completion RuntimeResult.


(** A registered key is dispatched to [processRequest] with the route
    and the manager stored for it. *)
Lemma lambda_handler_dispatches_registered_route app event ri :
  Lambda.routesByPath app !! Lambda.routeKey event = Some ri →
  Lambda.createAwsLambdaHandler processRequest app event =
  bind (processRequest event (Lambda.LambdaExtractor_extract event)
          (Lambda.route ri) (Lambda.controllerManager ri) app)
       (λ result, Return (Lambda.toLambdaResult result)).
Proof.
  intros Hri. unfold Lambda.createAwsLambdaHandler. now rewrite Hri.
Qed.
End LambdaHandler.

Section NodeListener.
Variable statusCodeToDesc : Z → string.
Variable RouteMatcher_match : list string → string → option Node.RouteMatch.

(** X13. The node listener answers 404, as plain text with the description
    of the status, when the request has no URL or the matcher finds no
    route for its lower-cased method and its path. *)
Lemma node_listener_not_found app request :
  match Node.url request with
  | None => True
  | Some u =>
      u = "" ∨
      ∃ pathname,
        URL_pathname u = Some pathname ∧
        RouteMatcher_match (Node.routeMatcher app)
          (from_option JsString.toLowerCase "" (Node.req_method request)
           +:+ "/" +:+ pathname) = None
  end →
  Node.requestListener_route statusCodeToDesc RouteMatcher_match app request =
  Node.Responded
    {| Node.res_statusCode := 404;
       Node.res_headers := {[ "Content-Type" := Node.One "text/plain" ]};
       Node.res_body := BodyText (statusCodeToDesc 404) |}.
Proof.
  unfold Node.requestListener_route.
  destruct (Node.url request) as [u|]; [|reflexivity].
  intros [-> | (pathname & Hp & Hm)]; [reflexivity|].
  case_bool_decide; [reflexivity|]. now rewrite Hp, Hm.
Qed.
End NodeListener.

End RouteLookup.

(** * Body reading *)

(** X11. Whatever the request, [getRawBody] is called with the limit [10mb],
    and on the inflating or gunzipping stream when the request declares
    [deflate] or [gzip] in any letter case. What the reader then does with
    the limit is the package's. *)
Lemma getBody_arguments request input :
  Node.opt_limit (snd (Node.getBody request input)) = "10mb" ∧
  (∀ e, Node.req_headers request !! "content-encoding" = Some e →
        (JsString.differ_only_in_case e "deflate" →
         fst (Node.getBody request input) = Node.Inflate) ∧
        (JsString.differ_only_in_case e "gzip" →
         fst (Node.getBody request input) = Node.Gunzip)).
Proof.
  split; [reflexivity|]. intros e He. unfold Node.getBody. rewrite He.
  cbn [fmap option_fmap option_map fst].
  split; intros Hcase; apply differ_only_in_case_lower in Hcase;
    rewrite Hcase; reflexivity.
Qed.

(** * Result shaping *)

Section ResultShaping.
Context `{Builtins}.

Lemma sendResultResponse_lookup result k :
  k ≠ "Content-Type" → k ≠ "Set-Cookie" →
  Node.res_headers (Node.sendResultResponse result) !! k =
  (λ v, Node.One (Scalar_toString v)) <$> result_headers result !! k.
Proof.
  intros Hct Hsc. unfold Node.sendResultResponse. cbn [Node.res_headers].
  destruct (0 <? length _)%nat;
    [rewrite lookup_insert_ne by congruence|];
    (destruct (Node.missing _ _);
     [rewrite lookup_insert_ne by congruence|]; apply lookup_fmap).
Qed.

(** What each adapter does with the [Content-Type] of the result it is
    given: node writes [application/json] when the entry is missing or
    falsy and the text of a truthy entry, lambda hands the headers on as
    they are. *)
Lemma content_type_per_adapter :
  ∀ result,
    Node.res_headers (Node.sendResultResponse result) !! "Content-Type" =
    Some (Node.One
            match result_headers result !! "Content-Type" with
            | Some v => if truthy v then Scalar_toString v else "application/json"
            | None => "application/json"
            end) ∧
    Lambda.res_headers (Lambda.toLambdaResult result) = result_headers result.
Proof.
  intros result. split; [|reflexivity].
  unfold Node.sendResultResponse, Node.missing. cbn [Node.res_headers].
  destruct (0 <? length _)%nat;
    [rewrite lookup_insert_ne by discriminate|];
    (destruct (result_headers result !! "Content-Type") as [v|] eqn:Hv;
     [destruct (truthy v); cbn [negb];
      [now rewrite lookup_fmap, Hv | now rewrite lookup_insert_eq]
     | now rewrite lookup_insert_eq]).
Qed.


End ResultShaping.

(** * Lazy construction of controller instances *)

Section InstanceManager.
Import Node.

Lemma step_single env w c :
  step env 0 (w, [c]) = (fst (resume env w c), [snd (resume env w c)]).
Proof. reflexivity. Qed.

(** A call run alone is four resumptions in a row. *)
Lemma getInstance_resumes env w :
  getInstance env w =
  let r1 := resume env w Invoked in
  let r2 := resume env (fst r1) (snd r1) in
  let r3 := resume env (fst r2) (snd r2) in
  resume env (fst r3) (snd r3).
Proof.
  unfold getInstance, run. cbn [fold_left]. rewrite !step_single.
  cbn [fst snd]. now destruct (resume env _ (snd (resume env _ (snd _)))).
Qed.

Lemma resume_cached env w i :
  instance (manager w) = Some i → resume env w Invoked = (w, Fulfilled i).
Proof. intros Hi. unfold resume. now rewrite Hi. Qed.

Lemma resume_finished env w c : finished c = true → resume env w c = (w, c).
Proof. now destruct c. Qed.

(** A call made when [this.instance] is set returns it at once and
    changes nothing. *)
Lemma getInstance_cached env w i :
  instance (manager w) = Some i →
  getInstance env w = (w, Fulfilled i).
Proof.
  intros Hi. rewrite getInstance_resumes. cbn zeta.
  rewrite (resume_cached _ _ _ Hi). cbn [fst snd].
  now rewrite !resume_finished.
Qed.

Lemma sequential_cached env n w i :
  instance (manager w) = Some i →
  Spec.sequential env n w = (w, repeat (Fulfilled i) n).
Proof.
  intros Hi. induction n as [|n IH]; [reflexivity|].
  cbn [Spec.sequential repeat]. rewrite (getInstance_cached _ _ _ Hi).
  cbn [fst snd]. now rewrite IH.
Qed.

(** The branches of [resume], one equation each. *)
Lemma resume_import env w :
  instance (manager w) = None → module (manager w) = false →
  resume env w Invoked =
  ({| manager := manager w; imports := S (imports w);
      constructions := constructions w; initStarted := initStarted w;
      initCompleted := initCompleted w |}, AwaitImport).
Proof. intros Hi Hm. unfold resume. now rewrite Hi, Hm. Qed.

Lemma resume_module_cached env w :
  instance (manager w) = None → module (manager w) = true →
  resume env w Invoked = (w, AwaitClass).
Proof. intros Hi Hm. unfold resume. now rewrite Hi, Hm. Qed.

Lemma resume_imported env w :
  import_ok env = true →
  resume env w AwaitImport =
  ({| manager := {| runtime := runtime (manager w); module := true;
                    instance := instance (manager w);
                    initialized := initialized (manager w) |};
      imports := imports w; constructions := constructions w;
      initStarted := initStarted w; initCompleted := initCompleted w |},
   AwaitClass).
Proof. intros Hi. unfold resume. now rewrite Hi. Qed.

Lemma resume_construct_throws env w :
  construct_ok env (constructions w) = false →
  resume env w AwaitClass =
  ({| manager := manager w; imports := imports w;
      constructions := S (constructions w);
      initStarted := initStarted w; initCompleted := initCompleted w |},
   Failed (Error "constructor failed")).
Proof. intros Hc. unfold resume. now rewrite Hc. Qed.

Lemma resume_construct_init env w :
  construct_ok env (constructions w) = true →
  initialized (manager w) = false →
  resume env w AwaitClass =
  ({| manager := {| runtime := runtime (manager w);
                    module := module (manager w);
                    instance := Some (constructions w);
                    initialized := false |};
      imports := imports w; constructions := S (constructions w);
      initStarted := initStarted w ++ [constructions w];
      initCompleted := initCompleted w |},
   AwaitInit (constructions w)).
Proof. intros Hc Hi. unfold resume. now rewrite Hc, Hi. Qed.

Lemma resume_construct_ready env w :
  construct_ok env (constructions w) = true →
  initialized (manager w) = true →
  resume env w AwaitClass =
  ({| manager := {| runtime := runtime (manager w);
                    module := module (manager w);
                    instance := Some (constructions w);
                    initialized := true |};
      imports := imports w; constructions := S (constructions w);
      initStarted := initStarted w; initCompleted := initCompleted w |},
   Fulfilled (constructions w)).
Proof. intros Hc Hi. unfold resume. now rewrite Hc, Hi. Qed.

Lemma resume_init_done env w i :
  init_ok env i = true →
  resume env w (AwaitInit i) =
  ({| manager := {| runtime := runtime (manager w);
                    module := module (manager w);
                    instance := instance (manager w);
                    initialized := true |};
      imports := imports w; constructions := constructions w;
      initStarted := initStarted w;
      initCompleted := initCompleted w ++ [i] |},
   Fulfilled (default i (instance (manager w)))).
Proof. intros Hi. unfold resume. now rewrite Hi. Qed.

Lemma resume_init_rejects env w i :
  init_ok env i = false →
  resume env w (AwaitInit i) = (w, Failed (Error "init failed")).
Proof. intros Hi. unfold resume. now rewrite Hi. Qed.

Ltac world :=
  cbn [fst snd manager imports constructions initStarted initCompleted
       Node.runtime module instance initialized newWorld newManager
       negb app default from_option].

(** The first call on a fresh manager, when nothing fails. *)
Lemma getInstance_fresh env runtime :
  import_ok env = true →
  construct_ok env 0 = true →
  init_ok env 0 = true →
  getInstance env (newWorld runtime) =
  ({| manager := {| runtime := runtime; module := true;
                    instance := Some 0%nat; initialized := true |};
      imports := 1; constructions := 1;
      initStarted := match initMethodName runtime with
                     | Some _ => [0%nat] | None => [] end;
      initCompleted := match initMethodName runtime with
                       | Some _ => [0%nat] | None => [] end |},
   Fulfilled 0).
Proof.
  intros Himp Hctor Hhook. rewrite getInstance_resumes. cbn zeta.
  rewrite resume_import by reflexivity. world.
  rewrite (resume_imported _ _ Himp). world.
  destruct (initMethodName runtime) as [init|].
  - rewrite resume_construct_init
      by (world; first [exact Hctor | now rewrite bool_decide_eq_false_2]).
    world. rewrite (resume_init_done _ _ _ Hhook). world. reflexivity.
  - rewrite resume_construct_ready
      by (world; first [exact Hctor | now rewrite bool_decide_eq_true_2]).
    world. rewrite resume_finished by reflexivity. reflexivity.
Qed.

(** X24. Calls that do not overlap, in a world where nothing fails: one
    construction, one run of the init hook when one is declared, and
    every call returns that one instance. *)
Lemma sequential_calls_build_once runtime n :
  let r := Spec.sequential Examples.fair (S n) (newWorld runtime) in
  constructions (fst r) = 1%nat ∧
  initStarted (fst r) =
    match initMethodName runtime with Some _ => [0%nat] | None => [] end ∧
  initCompleted (fst r) = initStarted (fst r) ∧
  snd r = repeat (Fulfilled 0) (S n).
Proof.
  cbn [Spec.sequential]. rewrite getInstance_fresh by reflexivity.
  cbn [fst snd]. rewrite (sequential_cached _ _ _ 0%nat) by reflexivity.
  cbn [fst snd constructions initStarted initCompleted repeat]. auto.
Qed.

(** C1, what the code does. Two calls of [getInstance()] made before
    either has passed its first [await] both find [this.instance] unset:
    resumed in the order they were made, they construct two instances
    and run the init hook twice, and the first caller is handed
    instance 1 while only the hook of instance 0 has completed. *)
Theorem concurrent_getInstance_constructs_twice :
  let start := (newWorld Examples.users, [Invoked; Invoked]) in
  let s7 := run Examples.fair [0; 1; 0; 1; 0; 1; 0]%nat start in
  let s8 := run Examples.fair [0; 1; 0; 1; 0; 1; 0; 1]%nat start in
  constructions (fst s8) = 2%nat ∧
  initStarted (fst s8) = [0; 1]%nat ∧
  snd s8 = [Fulfilled 1; Fulfilled 1] ∧
  snd s7 = [Fulfilled 1; AwaitInit 1] ∧
  initCompleted (fst s7) = [0%nat].
Proof. vm_compute. repeat split; reflexivity. Qed.

(** The first call on a fresh manager when the construction throws. *)
Lemma getInstance_construction_fails env runtime :
  import_ok env = true →
  construct_ok env 0 = false →
  getInstance env (newWorld runtime) =
  ({| manager := {| runtime := runtime; module := true; instance := None;
                    initialized := bool_decide (initMethodName runtime = None) |};
      imports := 1; constructions := 1;
      initStarted := []; initCompleted := [] |},
   Failed (Error "constructor failed")).
Proof.
  intros Himp Hctor. rewrite getInstance_resumes. cbn zeta.
  rewrite resume_import by reflexivity. world.
  rewrite (resume_imported _ _ Himp). world.
  rewrite resume_construct_throws by exact Hctor. world.
  rewrite resume_finished by reflexivity. reflexivity.
Qed.

(** X25. A call whose construction throws leaves the manager without an
    instance; the next call constructs again. *)
Lemma failed_construction_is_retried env runtime :
  import_ok env = true →
  construct_ok env 0 = false →
  let first := getInstance env (newWorld runtime) in
  (∃ e, snd first = Failed e) ∧
  instance (manager (fst first)) = None ∧
  initialized (manager (fst first)) = initialized (newManager runtime) ∧
  constructions (fst (getInstance env (fst first))) = 2%nat.
Proof.
  intros Himp Hctor. cbn zeta.
  rewrite (getInstance_construction_fails _ _ Himp Hctor). world.
  repeat split; eauto.
  rewrite getInstance_resumes. cbn zeta.
  rewrite resume_module_cached by reflexivity. world.
  destruct (construct_ok env 1) eqn:Hc1.
  - destruct (bool_decide (initMethodName runtime = None)) eqn:Hinit.
    + rewrite resume_construct_ready by (world; first [assumption | reflexivity]). world.
      now rewrite !resume_finished.
    + rewrite resume_construct_init by (world; first [assumption | reflexivity]). world.
      destruct (init_ok env 1) eqn:Hh.
      * rewrite (resume_init_done _ _ _ Hh). world.
        now rewrite resume_finished.
      * rewrite (resume_init_rejects _ _ _ Hh). world.
        now rewrite resume_finished.
  - rewrite resume_construct_throws by exact Hc1. world.
    now rewrite !resume_finished.
Qed.

(** The first call on a fresh manager when the init hook rejects. *)
Lemma getInstance_init_fails env runtime :
  initMethodName runtime ≠ None →
  import_ok env = true →
  construct_ok env 0 = true →
  init_ok env 0 = false →
  getInstance env (newWorld runtime) =
  ({| manager := {| runtime := runtime; module := true;
                    instance := Some 0%nat; initialized := false |};
      imports := 1; constructions := 1;
      initStarted := [0%nat]; initCompleted := [] |},
   Failed (Error "init failed")).
Proof.
  intros Hinit Himp Hctor Hhook. rewrite getInstance_resumes. cbn zeta.
  rewrite resume_import by reflexivity. world.
  rewrite (resume_imported _ _ Himp). world.
  rewrite resume_construct_init
    by (world; first [exact Hctor | now rewrite bool_decide_eq_false_2]).
  world. rewrite (resume_init_rejects _ _ _ Hhook). reflexivity.
Qed.

(** C3, what the code does. When the init hook of the first instance
    rejects, the call fails and [this.initialized] stays [false], but
    [this.instance] already holds the instance: the next call returns
    that instance at once, without running the hook again. *)
Theorem failed_init_leaves_instance_cached :
  ∀ env runtime,
    initMethodName runtime ≠ None →
    import_ok env = true →
    construct_ok env 0 = true →
    init_ok env 0 = false →
    let first := getInstance env (newWorld runtime) in
    let second := getInstance env (fst first) in
    (∃ e, snd first = Failed e) ∧
    instance (manager (fst first)) = Some 0%nat ∧
    initialized (manager (fst first)) = false ∧
    snd second = Fulfilled 0 ∧
    initStarted (fst second) = [0%nat] ∧
    initCompleted (fst second) = [] ∧
    initialized (manager (fst second)) = false.
Proof.
  intros env runtime Hinit Himp Hctor Hhook. cbn zeta.
  rewrite (getInstance_init_fails _ _ Hinit Himp Hctor Hhook). cbn [fst snd].
  rewrite (getInstance_cached _ _ 0%nat) by reflexivity.
  cbn [fst snd manager instance initialized initStarted initCompleted].
  repeat split; eauto.
Qed.

End InstanceManager.

(** * The properties on concrete inputs *)

Section OnExamples.
#[local] Existing Instance Examples.platform.

Lemma binary_body_needs_base64_flag_witness :
  location Examples.file = loc_body ∧ declaredTypeName Examples.file = "Buffer" ∧
  Lambda.body Examples.event = Some "{" ∧ "{" ≠ "" ∧
  ∃ message,
    Lambda.LambdaExtractor_extract Examples.event Examples.file =
    Throw (HttpError 400 message).
Proof.
  split; [reflexivity|]. split; [reflexivity|]. split; [reflexivity|].
  split; [discriminate|].
  apply (binary_body_needs_base64_flag Examples.event Examples.file "{");
    [reflexivity | reflexivity | reflexivity | discriminate | reflexivity].
Defined.

Lemma malformed_json_body_throws_SyntaxError_witness :
  location Examples.order = loc_body ∧ declaredTypeName Examples.order ≠ "string" ∧
  declaredTypeName Examples.order ≠ "Buffer" ∧
  Lambda.body Examples.event = Some "{" ∧ "{" ≠ "" ∧ JSON_parse "{" = None ∧
  Lambda.LambdaExtractor_extract Examples.event Examples.order = Throw SyntaxError.
Proof.
  split; [reflexivity|]. split; [discriminate|]. split; [discriminate|].
  split; [reflexivity|]. split; [discriminate|]. split; [reflexivity|].
  apply (malformed_json_body_throws_SyntaxError Examples.event Examples.order "{");
    [reflexivity | discriminate | discriminate | reflexivity | discriminate
    | reflexivity].
Defined.

(** The entry [=v], cut at its first [=], has the empty name, yet an
    input with the empty name does not extract its value. *)
Lemma cookie_with_empty_name_is_skipped :
  location Examples.unnamed = loc_cookie ∧
  Lambda.cookies Examples.event = Some ["=v"; "sid=a=b"] ∧
  Spec.cookie_lookup "" ["=v"; "sid=a=b"] = Some "v" ∧
  Lambda.LambdaExtractor_extract Examples.event Examples.unnamed =
  Return undefined.
Proof. repeat split; reflexivity. Qed.

Lemma cookie_extraction_first_named_entry_witness :
  location Examples.sid = loc_cookie ∧ name Examples.sid ≠ "" ∧
  Lambda.LambdaExtractor_extract Examples.event Examples.sid = Return (VString "a=b").
Proof.
  split; [reflexivity|]. split; [discriminate|].
  apply (cookie_extraction_first_named_entry Examples.event Examples.sid eq_refl).
  discriminate.
Defined.

Lemma absent_input_named_after_inherited_member_witness :
  (location Examples.constructor = loc_query ∨
   location Examples.constructor = loc_path) ∧
  name Examples.constructor ∈ Object_prototype ∧
  Spec.absent Examples.event Examples.constructor ∧
  Lambda.LambdaExtractor_extract Examples.event
    (Spec.with_required (Some false) Examples.constructor) =
    Return (VInherited "constructor") ∧
  Lambda.LambdaExtractor_extract Examples.event
    (Spec.with_required (Some false) Examples.constructor) ≠ Return undefined.
Proof.
  assert (Hin : name Examples.constructor ∈ Object_prototype)
    by (apply (bool_decide_unpack _); reflexivity).
  split; [left; reflexivity|]. split; [exact Hin|]. split; [reflexivity|].
  apply (absent_input_named_after_inherited_member Examples.event
           Examples.constructor (Some false)); [left; reflexivity | exact Hin |].
  reflexivity.
Defined.

Lemma header_named_after_inherited_member_witness :
  location Examples.Constructor = loc_header ∧
  JsString.toLowerCase (name Examples.Constructor) ∈ Object_prototype ∧
  default ∅ (Lambda.headers Examples.event)
    !! JsString.toLowerCase (name Examples.Constructor) = None ∧
  Lambda.LambdaExtractor_extract Examples.event Examples.Constructor =
    Return (VInherited "constructor") ∧
  Lambda.LambdaExtractor_extract Examples.event Examples.Constructor ≠
    Return undefined.
Proof.
  assert (Hin : JsString.toLowerCase (name Examples.Constructor) ∈ Object_prototype)
    by (apply (bool_decide_unpack _); reflexivity).
  split; [reflexivity|]. split; [exact Hin|]. split; [reflexivity|].
  apply (header_named_after_inherited_member Examples.event Examples.Constructor);
    [reflexivity | exact Hin | reflexivity].
Defined.


(** The same app answers its registered key. *)
Lemma lambda_handler_answers_registered_route :
  ∃ result,
    Lambda.createAwsLambdaHandler Examples.processRequest Examples.app
      Examples.event = Return result ∧
    Lambda.res_statusCode result = 200.
Proof. eexists. split; reflexivity. Qed.


Lemma failed_init_leaves_instance_cached_witness :
  initMethodName Examples.users ≠ None ∧
  Node.import_ok Examples.init_fails_once = true ∧
  Node.construct_ok Examples.init_fails_once 0 = true ∧
  Node.init_ok Examples.init_fails_once 0 = false ∧
  snd (Node.getInstance Examples.init_fails_once
         (fst (Node.getInstance Examples.init_fails_once
                 (Node.newWorld Examples.users)))) = Node.Fulfilled 0.
Proof.
  split; [discriminate|]. split; [reflexivity|]. split; [reflexivity|].
  split; [reflexivity|].
  apply (failed_init_leaves_instance_cached Examples.init_fails_once
           Examples.users);
    [discriminate | reflexivity | reflexivity | reflexivity].
Defined.

End OnExamples.

(** * More on the gateway adapter *)

Section GatewayAdapter.
Context `{Builtins}.
Import JsString.

(** X1. [extract] throws at the body, and at a location it does not know,
    and nowhere else: a query, path, header or cookie input and the
    request itself always extract. At the body it throws the 400 of a
    [Buffer] input without the base64 flag, or the [SyntaxError] of
    [JSON.parse] for a type that is neither [string] nor [Buffer]. *)
Theorem extract_throws_only_on_body :
  ∀ event input e,
    Lambda.LambdaExtractor_extract event input = Throw e →
    (location input = loc_body ∧
     ((e = HttpError 400 "Expected binary input" ∧
       declaredTypeName input = "Buffer" ∧
       Lambda.isBase64Encoded event = false) ∨
      (e = SyntaxError ∧ declaredTypeName input ≠ "string" ∧
       declaredTypeName input ≠ "Buffer"))) ∨
    (∃ l, location input = loc_other l ∧
          e = Error ("Unsupported param type: " +:+ l)).
Proof.
  intros event input e. unfold Lambda.LambdaExtractor_extract.
  destruct (location input) as [| | | | | |l]; try discriminate.
  - destruct (Lambda.cookies event); discriminate.
  - intros Hthrow. left. split; [reflexivity|].
    destruct (Lambda.body event) as [text|]; [|discriminate].
    case_bool_decide; [discriminate|].
    case_bool_decide as Hs; [discriminate|].
    case_bool_decide as Hb.
    + destruct (Lambda.isBase64Encoded event); [discriminate|].
      injection Hthrow as <-. left. auto.
    + destruct (JSON_parse text); [discriminate|].
      injection Hthrow as <-. right. auto.
  - intros [= <-]. right. eauto.
Qed.

Lemma split_first_eq_written n v :
  split_first_eq n = None →
  split_first_eq (n +:+ "=" +:+ v) = Some (n, v).
Proof. intros Hn. now apply split_first_eq_Some. Qed.

Lemma cookie_lookup_written name (cs : list (string * Scalar)) :
  Forall (λ c, Spec.plain_name (fst c)) cs →
  Spec.cookie_lookup name (Lambda.toLambdaCookies cs) =
  Scalar_toString <$> Spec.assoc name cs.
Proof.
  induction 1 as [|[n v] cs [_ Hn] _ IH]; [reflexivity|]. cbn [fst] in Hn.
  cbn [Lambda.toLambdaCookies map Spec.cookie_lookup Spec.assoc fst snd].
  rewrite (split_first_eq_written _ _ Hn).
  destruct (bool_decide (n = name)); [reflexivity | exact IH].
Qed.

Lemma written_cookies_are_named (cs : list (string * Scalar)) :
  Forall (λ c, Spec.plain_name (fst c)) cs →
  filter (λ c, Spec.named c = true) (Lambda.toLambdaCookies cs) =
  Lambda.toLambdaCookies cs.
Proof.
  induction 1 as [|[n v] cs [Hne Hn] _ IH]; [reflexivity|]. cbn [fst] in Hne, Hn.
  cbn [Lambda.toLambdaCookies map fst snd]. rewrite filter_cons.
  rewrite decide_True.
  - f_equal. exact IH.
  - unfold Spec.named. rewrite (split_first_eq_written _ _ Hn).
    now rewrite bool_decide_eq_false_2.
Qed.

(** X3. The cookies a result sets come back from the event that carries
    them: when every cookie name is non-empty and free of [=], looking a
    name up in the entries [toLambdaCookies] writes gives the text of the
    value the result has under that name, and [undefined] for a name the
    result does not set. *)
Theorem written_cookies_are_read_back :
  ∀ (cs : list (string * Scalar)) name,
    Forall (λ c, Spec.plain_name (fst c)) cs →
    Lambda.findCookie (T := Lambda.Event) name (Lambda.toLambdaCookies cs) =
    Spec.of_option (Scalar_toString <$> Spec.assoc name cs).
Proof.
  intros cs name Hcs. rewrite findCookie_spec.
  rewrite (written_cookies_are_named _ Hcs).
  now rewrite (cookie_lookup_written _ _ Hcs).
Qed.

Lemma letter_pair_upper u l :
  letter_pair u l → upper_char u = u ∧ upper_char l = u.
Proof.
  intros [Hu Hl].
  assert (l = ascii_of_N (N_of_ascii u + 32)) as ->
    by (rewrite <- Hl; symmetry; apply ascii_N_embedding).
  clear Hl. revert Hu.
  destruct u as [[] [] [] [] [] [] [] []]; vm_compute; intros; try discriminate; auto.
Qed.

Lemma differ_only_in_case_upper a b :
  differ_only_in_case a b → toUpperCase a = toUpperCase b.
Proof.
  induction 1 as [|c d s t Hcd _ IH]; [reflexivity|].
  cbn [toUpperCase]. f_equal; [|exact IH].
  destruct Hcd as [-> | [Hp | Hp]]; [reflexivity | |];
    destruct (letter_pair_upper _ _ Hp) as [H1 H2]; congruence.
Qed.

(** X7. Two routes with the same path whose methods differ only in letter
    case have the same key in [routesByPath], so the later one replaces
    the earlier. *)
Theorem routeKeyOf_ignores_method_case :
  ∀ r1 r2,
    differ_only_in_case (method r1) (method r2) →
    path r1 = path r2 →
    Lambda.routeKeyOf r1 = Lambda.routeKeyOf r2.
Proof.
  intros r1 r2 Hm Hp. unfold Lambda.routeKeyOf.
  now rewrite (differ_only_in_case_upper _ _ Hm), Hp.
Qed.

Lemma fold_insert_keep {A V : Type} (key : A → string) (val : A → V)
    (l : list A) (table : gmap string V) (k : string) :
  (∀ x, x ∈ l → key x ≠ k) →
  fold_left (λ t x, <[key x := val x]> t) l table !! k = table !! k.
Proof.
  revert table. induction l as [|a l IH]; intros table Hl; [reflexivity|].
  cbn [fold_left]. rewrite IH by (intros x Hx; apply Hl; now right).
  apply lookup_insert_ne. apply Hl. now left.
Qed.

Lemma fold_insert_origin {A V : Type} (key : A → string) (val : A → V)
    (l : list A) (table : gmap string V) (k : string) (v : V) :
  fold_left (λ t x, <[key x := val x]> t) l table !! k = Some v →
  table !! k = Some v ∨ ∃ x, x ∈ l ∧ key x = k ∧ v = val x.
Proof.
  revert table. induction l as [|a l IH]; intros table; cbn [fold_left]; [now left|].
  intros Hv. apply IH in Hv as [Hv | (x & Hx & Hk & ->)].
  - destruct (decide (key a = k)) as [<-|Hne].
    + rewrite lookup_insert_eq in Hv. injection Hv as <-.
      right. exists a. split; [now left | auto].
    + rewrite lookup_insert_ne in Hv by exact Hne. now left.
  - right. exists x. split; [now right | auto].
Qed.

Lemma routesByPath_registrations app :
  Lambda.routesByPath app =
  fold_left (λ t cr, <[Lambda.routeKeyOf (snd cr) := Spec.routeInfo cr]> t)
    (Spec.registrations app) ∅.
Proof.
  unfold Lambda.routesByPath, Spec.registrations.
  generalize (∅ : gmap string Lambda.RouteInfo).
  induction (controllers app) as [|c cs IH]; intros table; [reflexivity|].
  cbn [fold_left flat_map]. rewrite fold_left_app, IH. f_equal.
  generalize table. clear.
  induction (routes c) as [|r rs IH]; intros table; [reflexivity|].
  cbn [fold_left map]. now rewrite IH.
Qed.

Lemma elem_of_registrations app c r :
  (c, r) ∈ Spec.registrations app ↔ c ∈ controllers app ∧ r ∈ routes c.
Proof.
  unfold Spec.registrations. rewrite list_elem_of_In, in_flat_map. split.
  - intros (c' & Hc' & Hr). apply in_map_iff in Hr as (r' & [= -> ->] & Hr').
    split; now apply list_elem_of_In.
  - intros [Hc Hr]. exists c. split; [now apply list_elem_of_In|].
    apply in_map_iff. exists r. split; [reflexivity | now apply list_elem_of_In].
Qed.

(** X5. For each key, [routesByPath] holds the last route registered under
    it, with its controller: a route of the app after which no route of
    the same key is registered is the one its key finds. *)
Theorem routesByPath_holds_last_registration :
  ∀ app before cr after,
    Spec.registrations app = before ++ cr :: after →
    (∀ cr', cr' ∈ after →
            Lambda.routeKeyOf (snd cr') ≠ Lambda.routeKeyOf (snd cr)) →
    Lambda.routesByPath app !! Lambda.routeKeyOf (snd cr) = Some (Spec.routeInfo cr).
Proof.
  intros app before cr after Hreg Hafter.
  rewrite routesByPath_registrations, Hreg, fold_left_app. cbn [fold_left].
  rewrite (fold_insert_keep (λ cr, Lambda.routeKeyOf (snd cr)) Spec.routeInfo)
    by exact Hafter.
  apply lookup_insert_eq.
Qed.

(** X6. Every entry of [routesByPath] is a route of a controller of the app,
    stored under the key of that route. *)
Theorem routesByPath_entries_are_registered :
  ∀ app k ri,
    Lambda.routesByPath app !! k = Some ri →
    Lambda.controllerManager ri ∈ controllers app ∧
    Lambda.route ri ∈ routes (Lambda.controllerManager ri) ∧
    Lambda.routeKeyOf (Lambda.route ri) = k.
Proof.
  intros app k ri. rewrite routesByPath_registrations. intros Hri.
  apply (fold_insert_origin (λ cr, Lambda.routeKeyOf (snd cr)) Spec.routeInfo)
    in Hri as [Hri | ([c r] & Hin & Hk & ->)].
  - rewrite lookup_empty in Hri. discriminate.
  - apply elem_of_registrations in Hin as [Hc Hr]. cbn. auto.
Qed.

Section Handler.
Variable processRequest :
  Lambda.Event → (RuntimeInput → Completion (Extracted Lambda.Event)) →
  RuntimeRoute → RuntimeController → RuntimeApp → Completion RuntimeResult.

(** X8. For a [routeKey] that names no member of [Object.prototype], the
    handler has no outcome of its own but the [TypeError] of a key whose
    read is [undefined]: it returns exactly the results of
    [processRequest] for the registered route, passed through
    [toLambdaResult], and throws exactly what [processRequest] throws. *)
Theorem lambda_handler_outcomes :
  ∀ app event,
    Lambda.routeKey event ∉ Object_prototype →
    (∀ res,
       Lambda.createAwsLambdaHandler processRequest app event = Return res ↔
       ∃ ri result,
         get (Lambda.routesByPath app) (Lambda.routeKey event) = Some (Own ri) ∧
         processRequest event (Lambda.LambdaExtractor_extract event)
           (Lambda.route ri) (Lambda.controllerManager ri) app = Return result ∧
         res = Lambda.toLambdaResult result) ∧
    (∀ e,
       Lambda.createAwsLambdaHandler processRequest app event = Throw e ↔
       (get (Lambda.routesByPath app) (Lambda.routeKey event) = None ∧
        e = TypeError) ∨
       ∃ ri,
         get (Lambda.routesByPath app) (Lambda.routeKey event) = Some (Own ri) ∧
         processRequest event (Lambda.LambdaExtractor_extract event)
           (Lambda.route ri) (Lambda.controllerManager ri) app = Throw e).
Proof.
  intros app event Hkey. unfold Lambda.createAwsLambdaHandler, get.
  rewrite (bool_decide_eq_false_2 _ Hkey).
  destruct (Lambda.routesByPath app !! Lambda.routeKey event) as [ri|].
  - change (extract event) with (Lambda.LambdaExtractor_extract event).
    destruct (processRequest event _ _ _ app) as [result|e'] eqn:Hpr; cbn [bind].
    + split.
      * intros res. split.
        -- intros [= <-]. exists ri, result. auto.
        -- intros (ri' & result' & [= <-] & Hr & ->). rewrite Hpr in Hr.
           now injection Hr as <-.
      * intros e. split; [discriminate|].
        intros [[? _] | (ri' & [= <-] & Hr)]; [discriminate|].
        rewrite Hpr in Hr. discriminate.
    + split.
      * intros res. split; [discriminate|].
        intros (ri' & result' & [= <-] & Hr & _). rewrite Hpr in Hr. discriminate.
      * intros e. split.
        -- intros [= <-]. right. exists ri. auto.
        -- intros [[? _] | (ri' & [= <-] & Hr)]; [discriminate|].
           rewrite Hpr in Hr. now injection Hr as <-.
  - split.
    + intros res. split; [discriminate|]. intros (? & ? & ? & _). discriminate.
    + intros e. split.
      * intros [= <-]. now left.
      * intros [[_ ->] | (? & ? & _)]; [reflexivity | discriminate].
Qed.
End Handler.

End GatewayAdapter.

(** * More on the node adapter *)

Section NodeResponses.
Context `{Builtins}.
Import JsString.

(** X9. Both adapters write the cookies of a result alike: when the result
    sets a cookie, the [Set-Cookie] header of the node response is the
    list of entries the lambda result carries as [cookies], one per
    cookie; when it sets none, node sends no [Set-Cookie] of its own but
    the text of a [Set-Cookie] header the result may have. *)
Theorem set_cookie_is_the_lambda_cookie_list :
  ∀ result,
    Node.res_headers (Node.sendResultResponse result) !! "Set-Cookie" =
    match result_cookies result with
    | [] => (λ v, Node.One (Scalar_toString v)) <$> result_headers result !! "Set-Cookie"
    | _ :: _ => Some (Node.Many (Lambda.res_cookies (Lambda.toLambdaResult result)))
    end ∧
    length (Lambda.res_cookies (Lambda.toLambdaResult result)) =
    length (result_cookies result).
Proof.
  intros result. split.
  - unfold Node.sendResultResponse, Lambda.toLambdaResult, Lambda.toLambdaCookies.
    cbn [Node.res_headers Lambda.res_cookies].
    destruct (result_cookies result) as [|c cs].
    + cbn [map length Nat.ltb Nat.leb].
      destruct (Node.missing _ _);
        [rewrite lookup_insert_ne by discriminate|]; apply lookup_fmap.
    + cbn [map length Nat.ltb Nat.leb]. apply lookup_insert_eq.
  - cbn. unfold Lambda.toLambdaCookies. apply length_map.
Qed.

(** X10. The test for an explicit [Content-Type] is exact in letter case: a
    result whose header is spelled otherwise, and that has none spelled
    [Content-Type], goes out with its own header and with the default
    beside it. *)
Theorem content_type_in_other_case_is_doubled :
  ∀ result k v,
    k ≠ "Content-Type" →
    differ_only_in_case k "Content-Type" →
    result_headers result !! k = Some v →
    result_headers result !! "Content-Type" = None →
    Node.res_headers (Node.sendResultResponse result) !! k =
      Some (Node.One (Scalar_toString v)) ∧
    Node.res_headers (Node.sendResultResponse result) !! "Content-Type" =
      Some (Node.One "application/json").
Proof.
  intros result k v Hk Hcase Hv Hnone. split.
  - rewrite sendResultResponse_lookup; [now rewrite Hv | exact Hk |].
    intros ->. apply differ_only_in_case_lower in Hcase. discriminate.
  - unfold Node.sendResultResponse, Node.missing. cbn [Node.res_headers].
    rewrite Hnone.
    destruct (0 <? length _)%nat;
      [rewrite lookup_insert_ne by discriminate|]; apply lookup_insert_eq.
Qed.

(** X12. Whatever the stream, the length handed to the reader is the
    request's [content-length] header, so for a compressed request it is
    the length before decoding. An encoding other than [deflate] and
    [gzip] is read as it comes, and the body is read as bytes exactly
    for a [Buffer] input. *)
Theorem getBody_length_and_stream :
  ∀ request input,
    Node.opt_length (snd (Node.getBody request input)) =
      Node.req_headers request !! "content-length" ∧
    (fst (Node.getBody request input) = Node.Request ↔
     ∀ e, Node.req_headers request !! "content-encoding" = Some e →
          toLowerCase e ≠ "deflate" ∧ toLowerCase e ≠ "gzip") ∧
    (Node.opt_encoding (snd (Node.getBody request input)) = None ↔
     declaredTypeName input = "Buffer").
Proof.
  intros request input. split; [reflexivity|]. split.
  - unfold Node.getBody. cbn [fst].
    destruct (Node.req_headers request !! "content-encoding") as [e|];
      cbn [fmap option_fmap option_map].
    + destruct (decide (toLowerCase e = "deflate")) as [Hd|Hd].
      { rewrite bool_decide_eq_true_2 by congruence.
        split; [discriminate|]. intros He. now destruct (He e eq_refl). }
      rewrite bool_decide_eq_false_2 by congruence.
      destruct (decide (toLowerCase e = "gzip")) as [Hg|Hg].
      { rewrite bool_decide_eq_true_2 by congruence.
        split; [discriminate|]. intros He. now destruct (He e eq_refl). }
      rewrite bool_decide_eq_false_2 by congruence.
      split; [|reflexivity]. intros _ e' [= <-]. now split.
    + rewrite !bool_decide_eq_false_2 by discriminate.
      split; [intros _ e [=] | reflexivity].
  - unfold Node.getBody. cbn [snd Node.opt_encoding].
    case_bool_decide as Hb.
    + split; [intros _; exact Hb | reflexivity].
    + split; [intros [=] | intros Hb'; contradiction].
Qed.

End NodeResponses.

Section NodeRouting.
Context `{Builtins}.
Import JsString.

Lemma register_routes i (rs : list RuntimeRoute)
    (acc : list string * gmap string (nat * RuntimeRoute)) :
  fold_left
    (λ acc r,
       (fst acc ++ [Node.routePathOf r],
        <[Node.routePathOf r := (i, r)]> (snd acc))) rs acc =
  (fst acc ++ map (λ ir, Node.routePathOf (snd ir)) (map (pair i) rs),
   fold_left (λ m ir, <[Node.routePathOf (snd ir) := ir]> m)
     (map (pair i) rs) (snd acc)).
Proof.
  revert acc. induction rs as [|r rs IH]; intros [added m]; cbn [fold_left map fst snd].
  - now rewrite app_nil_r.
  - rewrite IH. cbn [fst snd]. now rewrite <- app_assoc.
Qed.

Lemma register_numbered i cs acc :
  Node.register i cs acc =
  (fst acc ++ map (λ ir, Node.routePathOf (snd ir)) (Spec.numbered i cs),
   fold_left (λ m ir, <[Node.routePathOf (snd ir) := ir]> m)
     (Spec.numbered i cs) (snd acc)).
Proof.
  revert i acc. induction cs as [|c cs IH]; intros i [added m];
    cbn [Node.register Spec.numbered map fold_left fst snd].
  - now rewrite app_nil_r.
  - rewrite IH, register_routes. cbn [fst snd].
    now rewrite map_app, fold_left_app, <- app_assoc.
Qed.

Lemma elem_of_numbered j cs i r :
  (i, r) ∈ Spec.numbered j cs ↔
  (j ≤ i)%nat ∧ ∃ c, cs !! (i - j)%nat = Some c ∧ r ∈ routes c.
Proof.
  revert j. induction cs as [|c cs IH]; intros j; cbn [Spec.numbered].
  - split; [intros Hin; inversion Hin | intros (_ & c & Hc & _); discriminate].
  - rewrite elem_of_app, IH, list_elem_of_fmap. split.
    + intros [(r' & [= -> ->] & Hr) | (Hle & c' & Hc' & Hr)].
      * split; [lia|]. exists c. now rewrite Nat.sub_diag.
      * split; [lia|]. exists c'. split; [|exact Hr].
        replace (i - j)%nat with (S (i - S j)) by lia. exact Hc'.
    + intros (Hle & c' & Hc' & Hr).
      destruct (decide (i = j)) as [->|Hne].
      * left. rewrite Nat.sub_diag in Hc'. injection Hc' as <-. eauto.
      * right. split; [lia|]. exists c'. split; [|exact Hr].
        replace (i - j)%nat with (S (i - S j)) in Hc' by lia. exact Hc'.
Qed.

Lemma routeMap_None app p :
  Node.routeMap app !! p = None ↔ p ∉ Node.routeMatcher app.
Proof.
  unfold Node.routeMap, Node.routeMatcher.
  rewrite register_numbered. cbn [fst snd List.app].
  rewrite (fold_insert_lookup_None (λ ir, Node.routePathOf (snd ir)) (λ ir, ir)).
  rewrite lookup_empty, list_elem_of_fmap. split.
  - intros [_ Hall] (ir & -> & Hir). now apply (Hall ir).
  - intros Hout. split; [reflexivity|].
    intros ir Hir Hp. apply Hout. exists ir. split; [now symmetry | exact Hir].
Qed.

(** X14. The matcher and [routeMap] are filled together: a path has an entry
    in [routeMap] exactly when it was added to the matcher. *)
Theorem routeMap_has_the_paths_of_the_matcher :
  ∀ app p, is_Some (Node.routeMap app !! p) ↔ p ∈ Node.routeMatcher app.
Proof.
  intros app p. rewrite <- not_eq_None_Some, routeMap_None. split.
  - apply dec_stable.
  - intros Hin Hout. now apply Hout.
Qed.

(** Every entry of [routeMap] is a route of the controller whose number
    it carries, stored under the path of that route, and the setup loop
    made a fresh manager of that number. *)
Lemma routeMap_entries_are_routes :
  ∀ app p i r,
    Node.routeMap app !! p = Some (i, r) →
    Node.routePathOf r = p ∧
    ∃ c, controllers app !! i = Some c ∧ r ∈ routes c ∧
         Node.managers app !! i = Some (Node.newWorld c).
Proof.
  intros app p i r. unfold Node.routeMap. rewrite register_numbered. cbn [snd].
  intros Hir.
  apply (fold_insert_origin (λ ir, Node.routePathOf (snd ir)) (λ ir, ir))
    in Hir as [Hir | (ir & Hin & Hp & Heq)].
  - rewrite lookup_empty in Hir. discriminate.
  - cbn beta in Heq. subst ir. split; [exact Hp|].
    apply elem_of_numbered in Hin as (_ & c & Hc & Hr).
    rewrite Nat.sub_0_r in Hc. exists c. repeat split; [exact Hc | exact Hr |].
    unfold Node.managers. now rewrite list_lookup_fmap, Hc.
Qed.

Section Routing.
Variable statusCodeToDesc : Z → string.
Variable RouteMatcher_match : list string → string → option Node.RouteMatch.

Lemma routing_cases app request :
  match Node.requestListener_route statusCodeToDesc RouteMatcher_match app request with
  | Node.Responded response =>
      response = Node.sendErrorResponse statusCodeToDesc 404
  | Node.Rejected e =>
      e = TypeError ∧
      ∃ u, Node.url request = Some u ∧
           (URL_pathname u = None ∨
            ∃ pathname m,
              URL_pathname u = Some pathname ∧
              RouteMatcher_match (Node.routeMatcher app)
                (from_option toLowerCase "" (Node.req_method request)
                 +:+ "/" +:+ pathname) = Some m ∧
              Node.routeMap app !! Node.match_path m = None)
  | Node.Dispatch i r m =>
      Node.routeMap app !! Node.match_path m = Some (i, r)
  end.
Proof.
  unfold Node.requestListener_route.
  destruct (Node.url request) as [u|]; [|reflexivity].
  case_bool_decide; [reflexivity|].
  destruct (URL_pathname u) as [pathname|] eqn:Hp; [|split; eauto].
  destruct (RouteMatcher_match _ _) as [m|] eqn:Hm; [|reflexivity].
  destruct (Node.routeMap app !! Node.match_path m) as [[i r]|] eqn:Hr;
    [exact Hr|].
  split; [reflexivity|]. exists u. split; [reflexivity|]. right. eauto.
Qed.

(** X15. A request the listener dispatches goes to a route of the app: the
    route belongs to the controller of the manager it is dispatched to,
    its path is the one the matcher answered, and that manager exists. *)
Theorem dispatch_goes_to_a_route_of_the_app :
  ∀ app request i r m,
    Node.requestListener_route statusCodeToDesc RouteMatcher_match app request =
    Node.Dispatch i r m →
    Node.routePathOf r = Node.match_path m ∧
    ∃ c, controllers app !! i = Some c ∧ r ∈ routes c ∧
         Node.managers app !! i = Some (Node.newWorld c).
Proof.
  intros app request i r m Hd.
  pose proof (routing_cases app request) as Hc. rewrite Hd in Hc.
  now apply routeMap_entries_are_routes.
Qed.

(** X16. Routing rejects the listener's promise only with a [TypeError]: when
    the [URL] constructor throws on the request's URL, or when the
    matcher answers a path that was never added to it. *)
Theorem routing_rejects_only_on_bad_url_or_foreign_path :
  ∀ app request e,
    Node.requestListener_route statusCodeToDesc RouteMatcher_match app request =
    Node.Rejected e →
    e = TypeError ∧
    ∃ u, Node.url request = Some u ∧
         (URL_pathname u = None ∨
          ∃ pathname m,
            URL_pathname u = Some pathname ∧
            RouteMatcher_match (Node.routeMatcher app)
              (from_option toLowerCase "" (Node.req_method request)
               +:+ "/" +:+ pathname) = Some m ∧
            Node.match_path m ∉ Node.routeMatcher app).
Proof.
  intros app request e Hr.
  pose proof (routing_cases app request) as Hc. rewrite Hr in Hc.
  destruct Hc as (-> & u & Hu & [Hp | (pathname & m & Hp & Hm & Hnone)]).
  - split; [reflexivity|]. eauto.
  - split; [reflexivity|]. exists u. split; [exact Hu|]. right.
    exists pathname, m. repeat split; [exact Hp | exact Hm |].
    now apply routeMap_None.
Qed.

(** X17. The method of a request counts up to letter case: two requests that
    differ only in the case of their method are routed alike. *)
Theorem routing_ignores_method_case :
  ∀ app u hs m1 m2,
    differ_only_in_case m1 m2 →
    Node.requestListener_route statusCodeToDesc RouteMatcher_match app
      {| Node.url := u; Node.req_method := Some m1; Node.req_headers := hs |} =
    Node.requestListener_route statusCodeToDesc RouteMatcher_match app
      {| Node.url := u; Node.req_method := Some m2; Node.req_headers := hs |}.
Proof.
  intros app u hs m1 m2 Hm. unfold Node.requestListener_route.
  cbn [Node.url Node.req_method from_option].
  now rewrite (differ_only_in_case_lower _ _ Hm).
Qed.

End Routing.

End NodeRouting.

(** * Every interleaving of [getInstance] *)

Section Interleavings.
Import Node.
Variable env : Environment.

Lemma resume_remaining w c :
  (Spec.remaining (snd (resume env w c)) ≤ pred (Spec.remaining c))%nat.
Proof.
  destruct c; unfold resume; cbn [Spec.remaining pred].
  - destruct (instance (manager w)); [|destruct (module (manager w))];
      cbn [snd Spec.remaining]; lia.
  - destruct (import_ok env); cbn [snd Spec.remaining]; lia.
  - destruct (construct_ok env _); [destruct (negb _)|];
      cbn [snd Spec.remaining]; lia.
  - destruct (init_ok env i); cbn [snd Spec.remaining]; lia.
  - cbn [snd Spec.remaining]; lia.
  - cbn [snd Spec.remaining]; lia.
Qed.

Lemma remaining_finished c : Spec.remaining c = 0%nat → finished c = true.
Proof. now destruct c. Qed.

(** A call of [getInstance()] run alone has settled after its four
    resumptions, whatever the manager and the world outside do: it has
    returned an instance or thrown. *)
Lemma getInstance_alone_settles :
  ∀ w,
    (∃ i, snd (getInstance env w) = Fulfilled i) ∨
    (∃ e, snd (getInstance env w) = Failed e).
Proof.
  intros w. rewrite getInstance_resumes. cbn zeta.
  set (r1 := resume env w Invoked).
  set (r2 := resume env (fst r1) (snd r1)).
  set (r3 := resume env (fst r2) (snd r2)).
  pose proof (resume_remaining w Invoked) as H1. fold r1 in H1.
  pose proof (resume_remaining (fst r1) (snd r1)) as H2. fold r2 in H2.
  pose proof (resume_remaining (fst r2) (snd r2)) as H3. fold r3 in H3.
  pose proof (resume_remaining (fst r3) (snd r3)) as H4.
  cbn [Spec.remaining pred] in H1.
  assert (Hz : Spec.remaining (snd (resume env (fst r3) (snd r3))) = 0%nat) by lia.
  destruct (snd (resume env (fst r3) (snd r3))); try discriminate; eauto.
Qed.

Lemma elem_of_insert_inv {A} (l : list A) n x y :
  y ∈ <[n := x]> l → y = x ∨ y ∈ l.
Proof.
  intros Hy. apply list_elem_of_lookup in Hy as [j Hj].
  apply list_lookup_insert_Some in Hj as [(-> & -> & _) | [_ Hj]]; [now left|].
  right. now apply list_elem_of_lookup_2 in Hj.
Qed.

Lemma filter_insert_count {A} (P : A → bool) (l : list A) n c c' :
  l !! n = Some c →
  (length (filter (λ x, P x = true) (<[n := c']> l)) + (if P c then 1 else 0) =
   length (filter (λ x, P x = true) l) + (if P c' then 1 else 0))%nat.
Proof.
  revert n. induction l as [|a l IH]; intros [|n] Hn; try discriminate.
  - injection Hn as ->. change (<[0%nat := c']> (c :: l)) with (c' :: l).
    rewrite !filter_cons.
    destruct (P c), (P c'); repeat case_decide; try congruence; cbn [length]; lia.
  - change (<[S n := c']> (a :: l)) with (a :: <[n := c']> l).
    rewrite !filter_cons. specialize (IH n Hn).
    case_decide; cbn [length]; lia.
Qed.

Ltac member_cases :=
  repeat match goal with
         | H : _ ∈ <[_ := _]> _ |- _ => apply elem_of_insert_inv in H as [H | H]
         | H : _ ∈ _ ++ [_] |- _ => apply elem_of_app in H as [H | H]
         | H : _ ∈ [_] |- _ => apply list_elem_of_singleton in H
         end.

Ltac use_bounds :=
  repeat match goal with
         | H : ∀ i, ?x = Some i → (i < _)%nat, E : ?x = Some ?j |- _ =>
             pose proof (H _ E); clear H
         | H : ∀ c i, c ∈ ?l → Spec.holds c = Some i → (i < _)%nat,
           E : ?c ∈ ?l, F : Spec.holds ?c = Some ?j |- _ =>
             pose proof (H _ _ E F); clear F
         | H : ∀ c i, c ∈ ?l → Spec.holds c = Some i → (i < _)%nat,
           E : ?c ∈ ?l |- _ =>
             lazymatch goal with
             | G : (_ < _)%nat |- _ => fail
             | _ => pose proof (H c _ E eq_refl)
             end
         | H : ∀ i, i ∈ ?l → (i < _)%nat, E : ?j ∈ ?l |- _ =>
             pose proof (H _ E); clear E
         end.

Ltac part :=
  intros; member_cases; simplify_eq; cbn [Spec.holds default] in *; simplify_eq;
  rewrite ?length_app; cbn [length];
  first
    [ lia
    | discriminate
    | assumption
    | rewrite ?elem_of_app, ?list_elem_of_singleton; now eauto
    | use_bounds; lia ].

Lemma step_coherent n s : Spec.coherent s → Spec.coherent (step env n s).
Proof.
  destruct s as [w calls]. unfold step. cbn [fst snd].
  destruct (calls !! n) as [c|] eqn:Hn; [|auto].
  unfold Spec.coherent. cbn [fst snd].
  intros (H1 & H2 & H3 & H4 & H5 & H6 & H7).
  pose proof (list_elem_of_lookup_2 _ _ _ Hn) as Hc.
  pose proof (λ c', filter_insert_count Spec.past_construction calls n c c' Hn)
    as Hcount.
  destruct c as [| | |i|i|e]; unfold resume.
  - destruct (instance (manager w)) as [i|] eqn:Hi;
      [|destruct (module (manager w))];
      cbn [fst snd manager constructions initStarted initCompleted instance];
      match goal with |- context [<[n := ?c']> calls] =>
        specialize (Hcount c'); cbn [Spec.past_construction] in Hcount end;
      repeat split; part.
  - destruct (import_ok env);
      cbn [fst snd manager constructions initStarted initCompleted instance];
      match goal with |- context [<[n := ?c']> calls] =>
        specialize (Hcount c'); cbn [Spec.past_construction] in Hcount end;
      repeat split; part.
  - destruct (construct_ok env _); [destruct (negb _)|];
      cbn [fst snd manager constructions initStarted initCompleted instance];
      match goal with |- context [<[n := ?c']> calls] =>
        specialize (Hcount c'); cbn [Spec.past_construction] in Hcount end;
      repeat split; part.
  - destruct (instance (manager w)) as [j|] eqn:Hj; destruct (init_ok env i);
      cbn [fst snd manager constructions initStarted initCompleted instance];
      match goal with |- context [<[n := ?c']> calls] =>
        specialize (Hcount c'); cbn [Spec.past_construction] in Hcount end;
      repeat split; part.
  - cbn [fst snd]. rewrite (list_insert_id _ _ _ Hn). auto 10.
  - cbn [fst snd]. rewrite (list_insert_id _ _ _ Hn). auto 10.
Qed.

Lemma run_coherent schedule s : Spec.coherent s → Spec.coherent (run env schedule s).
Proof.
  revert s. induction schedule as [|n schedule IH]; intros s Hs; [exact Hs|].
  apply IH. now apply step_coherent.
Qed.

Lemma fresh_coherent runtime n : Spec.coherent (Spec.fresh runtime n).
Proof.
  unfold Spec.coherent, Spec.fresh. cbn [fst snd newWorld newManager manager
    constructions initStarted initCompleted instance length].
  repeat split; try lia; try discriminate.
  - intros c i Hc. apply list_elem_of_In, repeat_spec in Hc. now subst c.
  - intros i Hi. inversion Hi.
  - intros i Hi. apply list_elem_of_In, repeat_spec in Hi. discriminate.
  - intros i Hi. inversion Hi.
Qed.

Lemma step_length n s : length (snd (step env n s)) = length (snd s).
Proof.
  unfold step. destruct (snd s !! n); [|reflexivity].
  cbn [snd]. apply length_insert.
Qed.

Lemma run_length schedule s : length (snd (run env schedule s)) = length (snd s).
Proof.
  revert s. induction schedule as [|n schedule IH]; intros s; [reflexivity|].
  change (run env (n :: schedule) s) with (run env schedule (step env n s)).
  now rewrite IH, step_length.
Qed.

(** X26. However [n] calls made on a fresh manager interleave, and whatever
    fails, each call constructs at most once and each construction is
    followed by at most one run of the init hook: there are never more
    than [n] constructions, nor more hook runs than constructions. *)
Theorem interleaved_calls_construct_at_most_once_each :
  ∀ runtime n schedule,
    let s := run env schedule (Spec.fresh runtime n) in
    (constructions (fst s) ≤ n)%nat ∧
    (length (initStarted (fst s)) ≤ constructions (fst s))%nat.
Proof.
  intros runtime n schedule s.
  destruct (run_coherent schedule _ (fresh_coherent runtime n)) as (H1 & H2 & _).
  fold s in H1, H2. split; [|exact H2].
  etransitivity; [exact H1|]. etransitivity; [apply length_filter|].
  unfold s. rewrite run_length. cbn. now rewrite repeat_length.
Qed.

Ltac use_built :=
  repeat match goal with
         | H : ∀ i, ?x = Some i → construct_ok env i = true, E : ?x = Some ?j |- _ =>
             pose proof (H _ E); clear H
         | H : ∀ c i, c ∈ ?l → Spec.holds c = Some i → construct_ok env i = true,
           E : ?c ∈ ?l, F : Spec.holds ?c = Some ?j |- _ =>
             pose proof (H _ _ E F); clear F
         | H : ∀ c i, c ∈ ?l → Spec.holds c = Some i → construct_ok env i = true,
           E : ?c ∈ ?l |- construct_ok env ?j = true =>
             exact (H c j E eq_refl)
         | H : ∀ i, i ∈ ?l → _ = true, E : ?j ∈ ?l |- _ =>
             pose proof (H _ E); clear E
         end.

Ltac built_part :=
  intros;
  repeat match goal with
         | B : ∀ i, Some ?j = Some i → _ |- _ => pose proof (B _ eq_refl); clear B
         | B : ∀ i, None = Some i → _ |- _ => clear B
         | E : ?x = Some _, F : ?x = Some _ |- _ => rewrite E in F
         | E : ?x = None, F : ?x = Some _ |- _ => rewrite E in F
         end;
  member_cases; simplify_eq; cbn [Spec.holds default] in *; simplify_eq;
  first [ assumption | discriminate | use_built; assumption ].

Lemma step_built n s : Spec.built env s → Spec.built env (step env n s).
Proof.
  destruct s as [w calls]. unfold step. cbn [fst snd].
  destruct (calls !! n) as [c|] eqn:Hn; [|auto].
  unfold Spec.built. cbn [fst snd].
  intros (B1 & B2 & B3 & B4).
  pose proof (list_elem_of_lookup_2 _ _ _ Hn) as Hc.
  destruct c as [| | |i|i|e]; unfold resume.
  - destruct (instance (manager w)) as [i|] eqn:Hi;
      [|destruct (module (manager w))];
      cbn [fst snd manager constructions initStarted initCompleted instance];
      repeat split; built_part.
  - destruct (import_ok env);
      cbn [fst snd manager constructions initStarted initCompleted instance];
      repeat split; built_part.
  - destruct (construct_ok env (constructions w)) eqn:Hok; [destruct (negb _)|];
      cbn [fst snd manager constructions initStarted initCompleted instance];
      repeat split; built_part.
  - destruct (instance (manager w)) as [j|] eqn:Hj;
      destruct (init_ok env i) eqn:Hhook;
      cbn [fst snd manager constructions initStarted initCompleted instance];
      repeat split; built_part.
  - cbn [fst snd]. rewrite (list_insert_id _ _ _ Hn). auto.
  - cbn [fst snd]. rewrite (list_insert_id _ _ _ Hn). auto.
Qed.

Lemma run_built schedule s : Spec.built env s → Spec.built env (run env schedule s).
Proof.
  revert s. induction schedule as [|n schedule IH]; intros s Hs; [exact Hs|].
  apply IH. now apply step_built.
Qed.

Lemma fresh_built runtime n : Spec.built env (Spec.fresh runtime n).
Proof.
  unfold Spec.built, Spec.fresh. cbn [fst snd newWorld newManager manager
    initStarted initCompleted instance].
  repeat split; try discriminate.
  - intros c i Hc. apply list_elem_of_In, repeat_spec in Hc. now subst c.
  - intros i Hi. inversion Hi.
  - intros i Hi. inversion Hi.
Qed.

(** X27. In every interleaving a caller is handed only an instance that a
    [new clazz(args)] returned, the cached instance is such an instance,
    and an init hook has completed only on such an instance, where it
    was started and where it fulfilled. *)
Theorem interleaved_calls_return_constructed_instances :
  ∀ runtime n schedule,
    let s := run env schedule (Spec.fresh runtime n) in
    (∀ i, Fulfilled i ∈ snd s →
          (i < constructions (fst s))%nat ∧ construct_ok env i = true) ∧
    (∀ i, instance (manager (fst s)) = Some i →
          (i < constructions (fst s))%nat ∧ construct_ok env i = true) ∧
    (∀ i, i ∈ initCompleted (fst s) →
          i ∈ initStarted (fst s) ∧ (i < constructions (fst s))%nat ∧
          construct_ok env i = true ∧ init_ok env i = true).
Proof.
  intros runtime n schedule s.
  destruct (run_coherent schedule _ (fresh_coherent runtime n))
    as (_ & _ & H3 & H4 & H5 & _ & H7).
  destruct (run_built schedule _ (fresh_built runtime n)) as (B1 & B2 & B3 & B4).
  fold s in H3, H4, H5, H7, B1, B2, B3, B4. split; [|split].
  - intros i Hi. split; [now apply (H4 _ _ Hi) | now apply (B2 _ _ Hi)].
  - intros i Hi. split; [now apply H3 | now apply B1].
  - intros i Hi. repeat split;
      [now apply H5 | apply H7; now apply H5 | apply B3; now apply H5
      | now apply B4].
Qed.

Lemma step_without_hook n s :
  initialized (manager (fst s)) = true ∧ initStarted (fst s) = [] ∧
  (∀ i, AwaitInit i ∉ snd s) →
  initialized (manager (fst (step env n s))) = true ∧
  initStarted (fst (step env n s)) = [] ∧
  (∀ i, AwaitInit i ∉ snd (step env n s)).
Proof.
  destruct s as [w calls]. unfold step. cbn [fst snd].
  intros (Hinit & Hstarted & Hnone).
  destruct (calls !! n) as [c|] eqn:Hn; [|auto].
  pose proof (list_elem_of_lookup_2 _ _ _ Hn) as Hc.
  destruct c as [| | |i|i|e]; unfold resume.
  - destruct (instance (manager w)); [|destruct (module (manager w))];
      cbn [fst snd manager initialized initStarted]; repeat split; try assumption;
      intros i Hi; member_cases; try discriminate; now apply (Hnone i).
  - destruct (import_ok env);
      cbn [fst snd manager initialized initStarted]; repeat split; try assumption;
      intros i Hi; member_cases; try discriminate; now apply (Hnone i).
  - rewrite Hinit. destruct (construct_ok env _);
      cbn [negb fst snd manager initialized initStarted]; repeat split;
      try assumption;
      intros i Hi; member_cases; try discriminate; now apply (Hnone i).
  - now destruct (Hnone i).
  - cbn [fst snd]. now rewrite (list_insert_id _ _ _ Hn).
  - cbn [fst snd]. now rewrite (list_insert_id _ _ _ Hn).
Qed.

(** X28. A controller that declares no init method never has a hook run, in
    any interleaving of any number of calls and whatever fails. *)
Theorem no_init_method_no_hook :
  ∀ runtime n schedule,
    initMethodName runtime = None →
    initStarted (fst (run env schedule (Spec.fresh runtime n))) = [] ∧
    initialized (manager (fst (run env schedule (Spec.fresh runtime n)))) = true.
Proof.
  intros runtime n schedule Hnone.
  assert (Hstart :
    initialized (manager (fst (Spec.fresh runtime n))) = true ∧
    initStarted (fst (Spec.fresh runtime n)) = [] ∧
    (∀ i, AwaitInit i ∉ snd (Spec.fresh runtime n))).
  { cbn [Spec.fresh fst snd newWorld newManager manager initialized initStarted].
    rewrite bool_decide_eq_true_2 by exact Hnone. repeat split.
    intros i Hi. apply list_elem_of_In, repeat_spec in Hi. discriminate. }
  revert Hstart. generalize (Spec.fresh runtime n).
  induction schedule as [|k schedule IH]; intros s Hs; [tauto|].
  change (run env (k :: schedule) s) with (run env schedule (step env k s)).
  apply IH. now apply step_without_hook.
Qed.

Lemma step_keeps_cache n s :
  (is_Some (instance (manager (fst s))) →
   is_Some (instance (manager (fst (step env n s))))) ∧
  (module (manager (fst s)) = true → module (manager (fst (step env n s))) = true) ∧
  (initialized (manager (fst s)) = true →
   initialized (manager (fst (step env n s))) = true) ∧
  (module (manager (fst s)) = true → imports (fst (step env n s)) = imports (fst s)).
Proof.
  destruct s as [w calls]. unfold step. cbn [fst snd].
  destruct (calls !! n) as [c|]; [|tauto].
  destruct c as [| | |i|i|e]; unfold resume.
  - destruct (instance (manager w)) eqn:Hi; [|destruct (module (manager w)) eqn:Hm];
      cbn [fst manager module instance initialized imports]; repeat split;
      intros; rewrite ?Hi, ?Hm; auto; try discriminate;
      exfalso; eapply is_Some_None; eassumption.
  - destruct (import_ok env);
      cbn [fst manager module instance initialized imports]; repeat split; auto.
  - destruct (construct_ok env _); [destruct (negb _)|];
      cbn [fst manager module instance initialized imports]; repeat split;
      eauto.
  - destruct (init_ok env i);
      cbn [fst manager module instance initialized imports]; repeat split; auto.
  - cbn [fst]. tauto.
  - cbn [fst]. tauto.
Qed.

(** X29. What the manager has cached it keeps: in any interleaving from any
    state, [this.instance], [this.module] and [this.initialized] are
    never unset once set, and once the module is cached no call
    evaluates [import] again. *)
Theorem cache_is_never_cleared :
  ∀ schedule s,
    (is_Some (instance (manager (fst s))) →
     is_Some (instance (manager (fst (run env schedule s))))) ∧
    (module (manager (fst s)) = true →
     module (manager (fst (run env schedule s))) = true ∧
     imports (fst (run env schedule s)) = imports (fst s)) ∧
    (initialized (manager (fst s)) = true →
     initialized (manager (fst (run env schedule s))) = true).
Proof.
  induction schedule as [|n schedule IH]; intros s; [tauto|].
  change (run env (n :: schedule) s) with (run env schedule (step env n s)).
  destruct (IH (step env n s)) as (IH1 & IH2 & IH3).
  destruct (step_keeps_cache n s) as (S1 & S2 & S3 & S4).
  repeat split.
  - intros Hi. apply IH1, S1, Hi.
  - apply IH2, S2, H.
  - destruct (IH2 (S2 H)) as [_ ->]. apply S4, H.
  - intros Hi. apply IH3, S3, Hi.
Qed.

Lemma step_served w i calls calls' n :
  instance (manager w) = Some i →
  Forall2 (λ c c', c' = c ∧ finished c = true ∨
                   c = Invoked ∧ (c' = Invoked ∨ c' = Fulfilled i)) calls calls' →
  fst (step env n (w, calls')) = w ∧
  Forall2 (λ c c', c' = c ∧ finished c = true ∨
                   c = Invoked ∧ (c' = Invoked ∨ c' = Fulfilled i))
    calls (snd (step env n (w, calls'))).
Proof.
  intros Hi Hrel. unfold step. cbn [fst snd].
  destruct (calls' !! n) as [c'|] eqn:Hn; [|auto]. cbn [fst snd].
  destruct (Forall2_lookup_r _ _ _ _ _ Hrel Hn) as (c & Hc & Hcc').
  assert (Hres : resume env w c' = (w, c') ∨ resume env w c' = (w, Fulfilled i) ∧ c = Invoked).
  { destruct Hcc' as [[-> Hfin] | [-> [-> | ->]]].
    - left. now apply resume_finished.
    - right. split; [now apply resume_cached | reflexivity].
    - left. now apply resume_finished. }
  destruct Hres as [-> | [-> ->]]; cbn [fst snd].
  - split; [reflexivity|]. now rewrite (list_insert_id _ _ _ Hn).
  - split; [reflexivity|].
    rewrite <- (list_insert_id _ _ _ Hc). apply Forall2_insert; [exact Hrel|].
    right. auto.
Qed.

Lemma run_served schedule w i calls calls' :
  instance (manager w) = Some i →
  Forall2 (λ c c', c' = c ∧ finished c = true ∨
                   c = Invoked ∧ (c' = Invoked ∨ c' = Fulfilled i)) calls calls' →
  fst (run env schedule (w, calls')) = w ∧
  Forall2 (λ c c', c' = c ∧ finished c = true ∨
                   c = Invoked ∧ (c' = Invoked ∨ c' = Fulfilled i))
    calls (snd (run env schedule (w, calls'))).
Proof.
  intros Hi. revert calls'.
  induction schedule as [|n schedule IH]; intros calls' Hrel; [auto|].
  change (run env (n :: schedule) (w, calls'))
    with (run env schedule (step env n (w, calls'))).
  destruct (step_served w i calls calls' n Hi Hrel) as [Hw Hrel'].
  destruct (step env n (w, calls')) as [w' calls'']. cbn [fst snd] in Hw, Hrel'.
  subst w'. now apply IH.
Qed.

(** X30. Once an instance is cached and no call is in flight, nothing is
    constructed, imported or initialised any more: calls made from then
    on, resumed in any order, leave the manager and the world as they
    are, and each of them that has run returned the cached instance. *)
Theorem cached_instance_serves_later_calls :
  ∀ schedule w calls i,
    instance (manager w) = Some i →
    Forall (λ c, c = Invoked ∨ finished c = true) calls →
    fst (run env schedule (w, calls)) = w ∧
    Forall2 (λ c c', c' = c ∧ finished c = true ∨
                     c = Invoked ∧ (c' = Invoked ∨ c' = Fulfilled i))
      calls (snd (run env schedule (w, calls))).
Proof.
  intros schedule w calls i Hi Hcalls. apply run_served; [exact Hi|].
  apply Forall2_same_length_lookup. split; [reflexivity|].
  intros k c c' Hc Hc'. rewrite Hc in Hc'. injection Hc' as <-.
  rewrite Forall_lookup in Hcalls. destruct (Hcalls _ _ Hc) as [-> | Hfin]; auto.
Qed.

End Interleavings.

(** * The node listener, one request at a time *)

Section NodeListener.
Context `{Builtins}.
Import Node.

Variable statusCodeToDesc : Z → string.
Variable RouteMatcher_match : list string → string → option RouteMatch.
Variable processRequest :
  NodeRequestExtractor → RuntimeRoute → nat → RuntimeApp → Completion RuntimeResult.
Variable env : nat → Environment.

Lemma bodyInput_None r :
  bodyInput r = None ↔ Forall (λ input, location input ≠ loc_body) (inputs r).
Proof.
  unfold bodyInput. induction (inputs r) as [|input l IH]; cbn [List.find].
  - split; [constructor | reflexivity].
  - destruct (location input) eqn:Hl;
      try (rewrite IH; split;
           [intros Hall; constructor; [congruence | exact Hall]
           | intros Hall; now inversion Hall]).
    split; [discriminate|]. intros Hall. inversion Hall. congruence.
Qed.

(** X18. The listener writes a response in two cases only: the 404 of a
    request routing has answered, and the response shaped from a result
    [processRequest] returned for the route, after the body was read and
    the instance obtained. A request routing rejects, a body that cannot
    be read, an instance that cannot be obtained and an error of
    [processRequest] each reject its promise with that error, and nothing
    is written. *)
Theorem listener_answers_404_or_a_result :
  ∀ getRawBody app ms request,
    (∀ response,
       snd (requestListener statusCodeToDesc RouteMatcher_match getRawBody
              processRequest env app ms request) = Return response →
       (requestListener_route statusCodeToDesc RouteMatcher_match app request =
          Responded response ∧
        response = sendErrorResponse statusCodeToDesc 404) ∨
       ∃ i r m body w k result,
         requestListener_route statusCodeToDesc RouteMatcher_match app request =
           Dispatch i r m ∧
         readBody getRawBody request r = Return body ∧
         ms !! i = Some w ∧
         snd (getInstance (env i) w) = Fulfilled k ∧
         processRequest (extractorOf request m body) r k app = Return result ∧
         response = sendResultResponse result) ∧
    (∀ e,
       requestListener_route statusCodeToDesc RouteMatcher_match app request =
         Rejected e →
       snd (requestListener statusCodeToDesc RouteMatcher_match getRawBody
              processRequest env app ms request) = Throw e) ∧
    (∀ i r m,
       requestListener_route statusCodeToDesc RouteMatcher_match app request =
         Dispatch i r m →
       (∀ e, readBody getRawBody request r = Throw e →
             snd (requestListener statusCodeToDesc RouteMatcher_match getRawBody
                    processRequest env app ms request) = Throw e) ∧
       (∀ body w e,
          readBody getRawBody request r = Return body →
          ms !! i = Some w →
          snd (getInstance (env i) w) = Failed e →
          snd (requestListener statusCodeToDesc RouteMatcher_match getRawBody
                 processRequest env app ms request) = Throw e) ∧
       (∀ body w k e,
          readBody getRawBody request r = Return body →
          ms !! i = Some w →
          snd (getInstance (env i) w) = Fulfilled k →
          processRequest (extractorOf request m body) r k app = Throw e →
          snd (requestListener statusCodeToDesc RouteMatcher_match getRawBody
                 processRequest env app ms request) = Throw e)).
Proof.
  intros getRawBody app ms request. unfold requestListener.
  pose proof (routing_cases statusCodeToDesc RouteMatcher_match app request) as Hr.
  destruct (requestListener_route _ _ app request) as [resp|e0|i r m].
  - split; [|split]; [|discriminate..]. cbn [snd].
    intros response [= <-]. left. auto.
  - split; [|split]; [discriminate| |discriminate].
    intros e [= <-]. reflexivity.
  - fold (readBody getRawBody request r).
    split; [|split]; [|discriminate|].
    + intros response.
      destruct (readBody getRawBody request r) as [body|e1] eqn:Hb;
        [|discriminate].
      fold (extractorOf request m body).
      destruct (ms !! i) as [w|] eqn:Hw; [|discriminate].
      destruct (snd (getInstance (env i) w)) as [| | |?|k|?] eqn:Hg;
        try discriminate.
      cbn [snd].
      destruct (processRequest _ r k app) as [result|e2] eqn:Hp; cbn [bind];
        [|discriminate].
      intros [= <-]. right. exists i, r, m, body, w, k, result. auto 10.
    + intros i' r' m' [= <- <- <-]. repeat split.
      * intros e ->. reflexivity.
      * intros body w e -> -> Hg. fold (extractorOf request m body).
        now rewrite Hg.
      * intros body w k e -> -> Hg Hp. fold (extractorOf request m body).
        rewrite Hg. cbn [snd]. now rewrite Hp.
Qed.

(** X19. The body is read before the controller is touched: when the route
    has a body input and the reader fails, the listener rejects with the
    reader's error and every manager is as it was, so nothing was
    imported or constructed for the request. *)
Theorem failed_body_read_constructs_nothing :
  ∀ getRawBody app ms request i r m input e,
    requestListener_route statusCodeToDesc RouteMatcher_match app request =
      Dispatch i r m →
    bodyInput r = Some input →
    getRawBody request (fst (getBody request input)) (snd (getBody request input)) =
      Throw e →
    requestListener statusCodeToDesc RouteMatcher_match getRawBody processRequest
      env app ms request = (ms, Throw e).
Proof.
  intros getRawBody app ms request i r m input e Hr Hb He.
  unfold requestListener. now rewrite Hr, Hb, He.
Qed.

(** X20. A route none of whose inputs is at the body never has the body read:
    the listener does the same whatever the reader would do. *)
Theorem route_without_body_input_reads_no_body :
  ∀ getRawBody1 getRawBody2 app ms request i r m,
    requestListener_route statusCodeToDesc RouteMatcher_match app request =
      Dispatch i r m →
    Forall (λ input, location input ≠ loc_body) (inputs r) →
    requestListener statusCodeToDesc RouteMatcher_match getRawBody1 processRequest
      env app ms request =
    requestListener statusCodeToDesc RouteMatcher_match getRawBody2 processRequest
      env app ms request.
Proof.
  intros g1 g2 app ms request i r m Hr Hall. apply bodyInput_None in Hall.
  unfold requestListener. now rewrite Hr, Hall.
Qed.

(** X21. A request changes at most the manager it is dispatched to: the
    managers of the other controllers, and all of them when the request
    is not dispatched, are as before, and no manager is added or lost. *)
Theorem listener_touches_only_its_manager :
  ∀ getRawBody app ms request j,
    (∀ i r m,
       requestListener_route statusCodeToDesc RouteMatcher_match app request =
         Dispatch i r m → j ≠ i) →
    fst (requestListener statusCodeToDesc RouteMatcher_match getRawBody
           processRequest env app ms request) !! j = ms !! j ∧
    length (fst (requestListener statusCodeToDesc RouteMatcher_match getRawBody
                   processRequest env app ms request)) = length ms.
Proof.
  intros getRawBody app ms request j Hj. unfold requestListener.
  destruct (requestListener_route _ _ app request) as [resp|e|i r m];
    [split; reflexivity..|].
  specialize (Hj i r m eq_refl).
  destruct (match bodyInput r with Some _ => _ | None => _ end) as [body|e];
    [|split; reflexivity].
  destruct (ms !! i) as [w|]; [|split; reflexivity].
  destruct (snd (getInstance (env i) w)); cbn [fst];
    (split; [apply list_lookup_insert_ne; congruence | apply length_insert]).
Qed.

(** X22. Once the controller of a route has its instance cached, a request
    to it changes no manager: nothing is imported, constructed or
    initialised again. *)
Theorem cached_controller_serves_without_change :
  ∀ getRawBody app ms request i r m w,
    requestListener_route statusCodeToDesc RouteMatcher_match app request =
      Dispatch i r m →
    ms !! i = Some w →
    is_Some (instance (manager w)) →
    fst (requestListener statusCodeToDesc RouteMatcher_match getRawBody
           processRequest env app ms request) = ms.
Proof.
  intros getRawBody app ms request i r m w Hr Hw [k Hk]. unfold requestListener.
  rewrite Hr.
  destruct (match bodyInput r with Some _ => _ | None => _ end) as [body|e];
    [|reflexivity].
  rewrite Hw, (getInstance_cached _ _ _ Hk). cbn [fst snd].
  now apply list_insert_id.
Qed.

End NodeListener.

(** * The further properties on concrete inputs *)

Section MoreOnExamples.
#[local] Existing Instance Examples.platform.

Ltac letters :=
  repeat (constructor;
          [first [ left; reflexivity
                 | right; left; split; reflexivity
                 | right; right; split; reflexivity ] |]);
  constructor.

Lemma extract_throws_only_on_body_witness :
  Lambda.LambdaExtractor_extract Examples.event Examples.file =
    Throw (HttpError 400 "Expected binary input") ∧
  ((location Examples.file = loc_body ∧
    ((HttpError 400 "Expected binary input" = HttpError 400 "Expected binary input" ∧
      declaredTypeName Examples.file = "Buffer" ∧
      Lambda.isBase64Encoded Examples.event = false) ∨
     (HttpError 400 "Expected binary input" = SyntaxError ∧
      declaredTypeName Examples.file ≠ "string" ∧
      declaredTypeName Examples.file ≠ "Buffer"))) ∨
   (∃ l, location Examples.file = loc_other l ∧
         HttpError 400 "Expected binary input" =
         Error ("Unsupported param type: " +:+ l))).
Proof.
  split; [reflexivity|].
  apply (extract_throws_only_on_body Examples.event Examples.file). reflexivity.
Defined.

Lemma body_text_or_json_witness :
  location Examples.order = loc_body ∧
  Lambda.body (Spec.with_body "true" Examples.event) = Some "true" ∧
  "true" ≠ "" ∧
  ((declaredTypeName Examples.order = "string" →
    Lambda.LambdaExtractor_extract (Spec.with_body "true" Examples.event)
      Examples.order = Return (VString "true")) ∧
   (declaredTypeName Examples.order ≠ "string" →
    declaredTypeName Examples.order ≠ "Buffer" →
    ∀ j, JSON_parse "true" = Some j →
         Lambda.LambdaExtractor_extract (Spec.with_body "true" Examples.event)
           Examples.order = Return (VJson j))).
Proof.
  split; [reflexivity|]. split; [reflexivity|]. split; [discriminate|].
  apply (body_text_or_json (Spec.with_body "true" Examples.event) Examples.order "true");
    [reflexivity | reflexivity | discriminate].
Defined.

Lemma written_cookies_are_read_back_witness :
  Forall (λ c, Spec.plain_name (fst c)) Examples.twoCookies ∧
  Lambda.findCookie (T := Lambda.Event) "sid"
    (Lambda.toLambdaCookies Examples.twoCookies) = VString "a=b".
Proof.
  assert (Hplain : Forall (λ c, Spec.plain_name (fst c)) Examples.twoCookies)
    by (repeat constructor; discriminate).
  split; [exact Hplain|].
  apply (written_cookies_are_read_back Examples.twoCookies "sid" Hplain).
Defined.

Lemma routeKeyOf_ignores_method_case_witness :
  JsString.differ_only_in_case (method Examples.getUsers) "GET" ∧
  path Examples.getUsers = "/users" ∧
  Lambda.routeKeyOf Examples.getUsers =
  Lambda.routeKeyOf
    {| method := "GET"; path := "/users"; methodName := "other"; inputs := [] |}.
Proof.
  assert (Hcase : JsString.differ_only_in_case (method Examples.getUsers) "GET")
    by (unfold Examples.getUsers, method; letters).
  split; [exact Hcase|]. split; [reflexivity|].
  apply (routeKeyOf_ignores_method_case Examples.getUsers
           {| method := "GET"; path := "/users"; methodName := "other"; inputs := [] |}
           Hcase).
  reflexivity.
Defined.

Lemma routesByPath_holds_last_registration_witness :
  Spec.registrations Examples.twice =
    [(Examples.users, Examples.getUsers)]
    ++ (Examples.admins, Examples.listUsers) :: [] ∧
  Lambda.routeKeyOf Examples.getUsers = Lambda.routeKeyOf Examples.listUsers ∧
  Lambda.routesByPath Examples.twice !! Lambda.routeKeyOf Examples.listUsers =
    Some (Spec.routeInfo (Examples.admins, Examples.listUsers)).
Proof.
  split; [reflexivity|]. split; [reflexivity|].
  apply (routesByPath_holds_last_registration Examples.twice
           [(Examples.users, Examples.getUsers)]
           (Examples.admins, Examples.listUsers) []); [reflexivity|].
  intros cr' Hin. inversion Hin.
Defined.

Lemma routesByPath_entries_are_registered_witness :
  Lambda.routesByPath Examples.site !! "PUT /file" =
    Some (Spec.routeInfo (Examples.files, Examples.putFile)) ∧
  Examples.files ∈ controllers Examples.site ∧
  Examples.putFile ∈ routes Examples.files ∧
  Lambda.routeKeyOf Examples.putFile = "PUT /file".
Proof.
  split; [reflexivity|].
  apply (routesByPath_entries_are_registered Examples.site "PUT /file"
           (Spec.routeInfo (Examples.files, Examples.putFile))).
  reflexivity.
Defined.

Lemma lambda_handler_outcomes_witness :
  (Lambda.routeKey Examples.event ∉ Object_prototype) ∧
  (∀ res,
     Lambda.createAwsLambdaHandler Examples.processRequest Examples.app
       Examples.event = Return res ↔
     ∃ ri result,
       get (Lambda.routesByPath Examples.app) (Lambda.routeKey Examples.event) =
         Some (Own ri) ∧
       Examples.processRequest Examples.event
         (Lambda.LambdaExtractor_extract Examples.event)
         (Lambda.route ri) (Lambda.controllerManager ri) Examples.app =
         Return result ∧
       res = Lambda.toLambdaResult result) ∧
  (∀ e,
     Lambda.createAwsLambdaHandler Examples.processRequest Examples.app
       Examples.event = Throw e ↔
     (get (Lambda.routesByPath Examples.app) (Lambda.routeKey Examples.event) =
        None ∧ e = TypeError) ∨
     ∃ ri,
       get (Lambda.routesByPath Examples.app) (Lambda.routeKey Examples.event) =
         Some (Own ri) ∧
       Examples.processRequest Examples.event
         (Lambda.LambdaExtractor_extract Examples.event)
         (Lambda.route ri) (Lambda.controllerManager ri) Examples.app = Throw e).
Proof.
  assert (Hkey : Lambda.routeKey Examples.event ∉ Object_prototype)
    by (apply (bool_decide_unpack _); reflexivity).
  split; [exact Hkey|].
  apply (lambda_handler_outcomes Examples.processRequest Examples.app
           Examples.event Hkey).
Defined.

Lemma content_type_in_other_case_is_doubled_witness :
  "content-type" ≠ "Content-Type" ∧
  JsString.differ_only_in_case "content-type" "Content-Type" ∧
  Node.res_headers
    (Node.sendResultResponse
       (Examples.result {[ "content-type" := SString "text/html" ]}))
    !! "content-type" = Some (Node.One "text/html") ∧
  Node.res_headers
    (Node.sendResultResponse
       (Examples.result {[ "content-type" := SString "text/html" ]}))
    !! "Content-Type" = Some (Node.One "application/json").
Proof.
  assert (Hcase : JsString.differ_only_in_case "content-type" "Content-Type")
    by letters.
  split; [discriminate|]. split; [exact Hcase|].
  apply (content_type_in_other_case_is_doubled
           (Examples.result {[ "content-type" := SString "text/html" ]})
           "content-type" (SString "text/html"));
    [discriminate | exact Hcase | reflexivity | reflexivity].
Defined.

Lemma node_listener_not_found_witness :
  ("/nowhere" = "" ∨
   ∃ pathname,
     URL_pathname "/nowhere" = Some pathname ∧
     Examples.matcher (Node.routeMatcher Examples.site)
       (from_option JsString.toLowerCase "" (Some "GET") +:+ "/" +:+ pathname) = None) ∧
  Node.requestListener_route Examples.description Examples.matcher Examples.site
    (Examples.request "GET" "/nowhere") =
  Node.Responded
    {| Node.res_statusCode := 404;
       Node.res_headers := {[ "Content-Type" := Node.One "text/plain" ]};
       Node.res_body := BodyText "Not Found" |}.
Proof.
  assert (Hno : "/nowhere" = "" ∨
    ∃ pathname,
      URL_pathname "/nowhere" = Some pathname ∧
      Examples.matcher (Node.routeMatcher Examples.site)
        (from_option JsString.toLowerCase "" (Some "GET") +:+ "/" +:+ pathname) = None)
    by (right; exists "/nowhere"; split; reflexivity).
  split; [exact Hno|].
  apply (node_listener_not_found Examples.description Examples.matcher
           Examples.site (Examples.request "GET" "/nowhere")).
  exact Hno.
Defined.

Lemma dispatch_goes_to_a_route_of_the_app_witness :
  Node.requestListener_route Examples.description Examples.matcher Examples.site
    (Examples.request "PUT" "/file") =
    Node.Dispatch 1 Examples.putFile
      {| Node.match_path := "put//file"; Node.pathParameters := ∅ |} ∧
  Node.routePathOf Examples.putFile = "put//file" ∧
  ∃ c, controllers Examples.site !! 1%nat = Some c ∧
       Examples.putFile ∈ routes c ∧
       Node.managers Examples.site !! 1%nat = Some (Node.newWorld c).
Proof.
  split; [reflexivity|].
  apply (dispatch_goes_to_a_route_of_the_app Examples.description Examples.matcher
           Examples.site (Examples.request "PUT" "/file") 1 Examples.putFile
           {| Node.match_path := "put//file"; Node.pathParameters := ∅ |}).
  reflexivity.
Defined.

Lemma routing_rejects_only_on_bad_url_or_foreign_path_witness :
  Node.requestListener_route Examples.description Examples.lost Examples.site
    (Examples.request "GET" "/users") = Node.Rejected TypeError ∧
  ∃ u, Node.url (Examples.request "GET" "/users") = Some u ∧
       (URL_pathname u = None ∨
        ∃ pathname m,
          URL_pathname u = Some pathname ∧
          Examples.lost (Node.routeMatcher Examples.site)
            (from_option JsString.toLowerCase ""
               (Node.req_method (Examples.request "GET" "/users"))
             +:+ "/" +:+ pathname) = Some m ∧
          Node.match_path m ∉ Node.routeMatcher Examples.site).
Proof.
  split; [reflexivity|].
  apply (routing_rejects_only_on_bad_url_or_foreign_path Examples.description
           Examples.lost Examples.site (Examples.request "GET" "/users") TypeError).
  reflexivity.
Defined.

Lemma routing_ignores_method_case_witness :
  JsString.differ_only_in_case "PUT" "put" ∧
  Node.requestListener_route Examples.description Examples.matcher Examples.site
    (Examples.request "PUT" "/file") =
  Node.requestListener_route Examples.description Examples.matcher Examples.site
    (Examples.request "put" "/file").
Proof.
  assert (Hcase : JsString.differ_only_in_case "PUT" "put") by letters.
  split; [exact Hcase|].
  apply (routing_ignores_method_case Examples.description Examples.matcher
           Examples.site (Some "/file") {[ "content-encoding" := "GZIP" ]}
           "PUT" "put" Hcase).
Defined.

Lemma listener_answers_404_or_a_result_witness :
  Node.requestListener_route Examples.description Examples.matcher Examples.site
    (Examples.request "GET" "/users") =
    Node.Dispatch 0 Examples.getUsers
      {| Node.match_path := "get//users"; Node.pathParameters := ∅ |} ∧
  Node.readBody Examples.emptyBody (Examples.request "GET" "/users")
    Examples.getUsers = Return None ∧
  snd (Node.getInstance Examples.init_fails_once (Node.newWorld Examples.users)) =
    Node.Failed (Error "init failed") ∧
  snd (Node.requestListener Examples.description Examples.matcher Examples.emptyBody
         Examples.answer (λ _, Examples.init_fails_once) Examples.site
         (Node.managers Examples.site) (Examples.request "GET" "/users")) =
    Throw (Error "init failed").
Proof.
  split; [reflexivity|]. split; [reflexivity|]. split; [reflexivity|].
  destruct (listener_answers_404_or_a_result Examples.description Examples.matcher
              Examples.answer (λ _, Examples.init_fails_once) Examples.emptyBody
              Examples.site (Node.managers Examples.site)
              (Examples.request "GET" "/users")) as [_ [_ Hfail]].
  destruct (Hfail 0%nat Examples.getUsers
              {| Node.match_path := "get//users"; Node.pathParameters := ∅ |}
              eq_refl) as [_ [Hinstance _]].
  apply (Hinstance None (Node.newWorld Examples.users) (Error "init failed"));
    reflexivity.
Defined.

Lemma failed_body_read_constructs_nothing_witness :
  Node.requestListener_route Examples.description Examples.matcher Examples.site
    (Examples.request "PUT" "/file") =
    Node.Dispatch 1 Examples.putFile
      {| Node.match_path := "put//file"; Node.pathParameters := ∅ |} ∧
  Node.bodyInput Examples.putFile = Some Examples.file ∧
  fst (Node.getBody (Examples.request "PUT" "/file") Examples.file) = Node.Gunzip ∧
  Node.requestListener Examples.description Examples.matcher Examples.tooLarge
    Examples.answer (λ _, Examples.fair) Examples.site
    (Node.managers Examples.site) (Examples.request "PUT" "/file") =
    (Node.managers Examples.site, Throw (HttpError 413 "request entity too large")).
Proof.
  split; [reflexivity|]. split; [reflexivity|]. split; [reflexivity|].
  apply (failed_body_read_constructs_nothing Examples.description Examples.matcher
           Examples.answer (λ _, Examples.fair) Examples.tooLarge Examples.site
           (Node.managers Examples.site) (Examples.request "PUT" "/file") 1
           Examples.putFile
           {| Node.match_path := "put//file"; Node.pathParameters := ∅ |}
           Examples.file (HttpError 413 "request entity too large"));
    reflexivity.
Defined.

Lemma route_without_body_input_reads_no_body_witness :
  Node.requestListener_route Examples.description Examples.matcher Examples.site
    (Examples.request "GET" "/users") =
    Node.Dispatch 0 Examples.getUsers
      {| Node.match_path := "get//users"; Node.pathParameters := ∅ |} ∧
  Forall (λ input, location input ≠ loc_body) (inputs Examples.getUsers) ∧
  Node.requestListener Examples.description Examples.matcher Examples.tooLarge
    Examples.answer (λ _, Examples.fair) Examples.site
    (Node.managers Examples.site) (Examples.request "GET" "/users") =
  Node.requestListener Examples.description Examples.matcher Examples.emptyBody
    Examples.answer (λ _, Examples.fair) Examples.site
    (Node.managers Examples.site) (Examples.request "GET" "/users").
Proof.
  split; [reflexivity|]. split; [constructor|].
  apply (route_without_body_input_reads_no_body Examples.description
           Examples.matcher Examples.answer (λ _, Examples.fair)
           Examples.tooLarge Examples.emptyBody Examples.site
           (Node.managers Examples.site) (Examples.request "GET" "/users") 0
           Examples.getUsers
           {| Node.match_path := "get//users"; Node.pathParameters := ∅ |});
    [reflexivity | constructor].
Defined.

Lemma listener_touches_only_its_manager_witness :
  (∀ i r m,
     Node.requestListener_route Examples.description Examples.matcher Examples.site
       (Examples.request "GET" "/users") = Node.Dispatch i r m → 1%nat ≠ i) ∧
  fst (Node.requestListener Examples.description Examples.matcher Examples.emptyBody
         Examples.answer (λ _, Examples.fair) Examples.site
         (Node.managers Examples.site) (Examples.request "GET" "/users")) !! 1%nat =
    Node.managers Examples.site !! 1%nat ∧
  length
    (fst (Node.requestListener Examples.description Examples.matcher
            Examples.emptyBody Examples.answer (λ _, Examples.fair) Examples.site
            (Node.managers Examples.site) (Examples.request "GET" "/users"))) =
    length (Node.managers Examples.site).
Proof.
  assert (Hother : ∀ i r m,
     Node.requestListener_route Examples.description Examples.matcher Examples.site
       (Examples.request "GET" "/users") = Node.Dispatch i r m → 1%nat ≠ i).
  { intros i r m Hd. vm_compute in Hd. injection Hd as <- _ _. discriminate. }
  split; [exact Hother|].
  apply (listener_touches_only_its_manager Examples.description Examples.matcher
           Examples.answer (λ _, Examples.fair) Examples.emptyBody Examples.site
           (Node.managers Examples.site) (Examples.request "GET" "/users") 1 Hother).
Defined.

Lemma cached_controller_serves_without_change_witness :
  Node.requestListener_route Examples.description Examples.matcher Examples.site
    (Examples.request "GET" "/users") =
    Node.Dispatch 0 Examples.getUsers
      {| Node.match_path := "get//users"; Node.pathParameters := ∅ |} ∧
  [Examples.ready; Node.newWorld Examples.files] !! 0%nat = Some Examples.ready ∧
  is_Some (Node.instance (Node.manager Examples.ready)) ∧
  fst (Node.requestListener Examples.description Examples.matcher Examples.emptyBody
         Examples.answer (λ _, Examples.init_fails_once) Examples.site
         [Examples.ready; Node.newWorld Examples.files]
         (Examples.request "GET" "/users")) =
    [Examples.ready; Node.newWorld Examples.files].
Proof.
  assert (Hsome : is_Some (Node.instance (Node.manager Examples.ready)))
    by (exists 0%nat; reflexivity).
  split; [reflexivity|]. split; [reflexivity|]. split; [exact Hsome|].
  apply (cached_controller_serves_without_change Examples.description
           Examples.matcher Examples.answer (λ _, Examples.init_fails_once)
           Examples.emptyBody Examples.site
           [Examples.ready; Node.newWorld Examples.files]
           (Examples.request "GET" "/users") 0 Examples.getUsers
           {| Node.match_path := "get//users"; Node.pathParameters := ∅ |}
           Examples.ready); [reflexivity | reflexivity | exact Hsome].
Defined.

Lemma no_init_method_no_hook_witness :
  initMethodName Examples.files = None ∧
  Node.initStarted
    (fst (Node.run Examples.fair [0; 1; 0; 1; 0; 1]%nat (Spec.fresh Examples.files 2))) =
    [] ∧
  Node.initialized
    (Node.manager
       (fst (Node.run Examples.fair [0; 1; 0; 1; 0; 1]%nat
               (Spec.fresh Examples.files 2)))) = true.
Proof.
  split; [reflexivity|].
  apply (no_init_method_no_hook Examples.fair Examples.files 2
           [0; 1; 0; 1; 0; 1]%nat).
  reflexivity.
Defined.

Lemma cached_instance_serves_later_calls_witness :
  Node.instance (Node.manager Examples.ready) = Some 0%nat ∧
  Forall (λ c, c = Node.Invoked ∨ Node.finished c = true)
    [Node.Invoked; Node.Invoked; Node.Failed TypeError] ∧
  fst (Node.run Examples.init_fails_once [1; 2; 1]%nat
         (Examples.ready, [Node.Invoked; Node.Invoked; Node.Failed TypeError])) =
    Examples.ready ∧
  Forall2 (λ c c', c' = c ∧ Node.finished c = true ∨
                   c = Node.Invoked ∧ (c' = Node.Invoked ∨ c' = Node.Fulfilled 0))
    [Node.Invoked; Node.Invoked; Node.Failed TypeError]
    (snd (Node.run Examples.init_fails_once [1; 2; 1]%nat
            (Examples.ready, [Node.Invoked; Node.Invoked; Node.Failed TypeError]))).
Proof.
  assert (Hcalls : Forall (λ c, c = Node.Invoked ∨ Node.finished c = true)
                     [Node.Invoked; Node.Invoked; Node.Failed TypeError])
    by (repeat constructor; auto).
  split; [reflexivity|]. split; [exact Hcalls|].
  apply (cached_instance_serves_later_calls Examples.init_fails_once [1; 2; 1]%nat
           Examples.ready [Node.Invoked; Node.Invoked; Node.Failed TypeError] 0
           eq_refl Hcalls).
Defined.

Lemma failed_construction_is_retried_witness :
  Node.import_ok Examples.construct_fails_once = true ∧
  Node.construct_ok Examples.construct_fails_once 0 = false ∧
  Node.instance
    (Node.manager
       (fst (Node.getInstance Examples.construct_fails_once
               (Node.newWorld Examples.users)))) = None ∧
  Node.constructions
    (fst (Node.getInstance Examples.construct_fails_once
            (fst (Node.getInstance Examples.construct_fails_once
                    (Node.newWorld Examples.users))))) = 2%nat.
Proof.
  split; [reflexivity|]. split; [reflexivity|].
  destruct (failed_construction_is_retried Examples.construct_fails_once
              Examples.users eq_refl eq_refl) as (_ & Hnone & _ & Htwo).
  split; [exact Hnone | exact Htwo].
Defined.

End MoreOnExamples.
